(** * imgaug: random-state derivation and the background augmentation pipeline

    A shallow embedding of the parts of [imgaug/imgaug.py] that manage random
    states ([new_random_state], [copy_random_state], [derive_random_states])
    and of the two background stages ([BatchLoader], [BackgroundAugmenter]).

    numpy's generator, the user's batch generator and the augmenters are
    external to the module; they enter as type classes.  Python object
    identity is modelled by references into a store, so that "the same
    object" and "an equal copy" are different statements. *)

From Stdlib Require Import ZArith List Bool Lia.
From stdpp Require Import base option numbers list gmap.
Import ListNotations.

Local Open Scope Z_scope.

(** ** Random states *)

Module RandomStates.

(** A Python value that the functions below accept as [random_state]:
    the module [np.random] itself (numpy's default, module-level generator),
    the object bound to the module-level name [CURRENT_RANDOM_STATE] (the
    name is never rebound), or any other [np.random.RandomState] object,
    living at some address. *)
Inductive pyref : Type :=
| NpRandomModule
| CurrentRandomState
| Obj (l : nat).

#[global] Instance pyref_eq_dec : EqDecision pyref.
Proof. solve_decision. Defined.

(** State of Python's own [random] module: only ever reseeded here. *)
Inductive py_random : Type :=
| PyUnseeded
| PySeeded (s : Z).

(** numpy's generator, as far as this module uses it. *)
Class Generator : Type := {
  (** the internal state vector ([get_state()] / [set_state()]) *)
  rk_state : Type;
  (** the state vector that [np.random.RandomState(seed)] and [.seed(seed)]
      set up for an integer seed that numpy accepts *)
  RandomState_seed : Z -> rk_state;
  (** one integer of [randint(0, 10**6, ...)]: the value, the next state *)
  rk_randint : rk_state -> Z * rk_state;
  (** [np.random.RandomState(None)]: the state that the operating system's
      entropy gives to the k-th unseeded construction *)
  os_entropy : nat -> rk_state;
  (** [randint(0, 10**6, ...)] returns integers from 0 up to [10**6 - 1] *)
  rk_randint_range : forall v, 0 <= fst (rk_randint v) < 10 ^ 6
}.

(** The integer seeds numpy accepts, 0 to [2**32 - 1]: for any other,
    [np.random.RandomState(seed)], [.seed(seed)] and [np.random.seed(seed)]
    raise [ValueError] before they change anything. *)
Definition seed_in_range (s : Z) : bool := (0 <=? s) && (s <=? 2 ^ 32 - 1).

Section Generator.

Context {G : Generator}.

(** What one Python process holds. *)
Record store : Type := mkStore {
  np_global : rk_state;          (* numpy's module-level generator *)
  current : rk_state;            (* the object CURRENT_RANDOM_STATE *)
  heap : gmap nat rk_state;      (* the other RandomState objects *)
  entropy_used : nat;            (* unseeded constructions so far *)
  py_rand : py_random            (* Python's random module *)
}.

Definition set_np_global (v : rk_state) (st : store) : store :=
  mkStore v (current st) (heap st) (entropy_used st) (py_rand st).
Definition set_current (v : rk_state) (st : store) : store :=
  mkStore (np_global st) v (heap st) (entropy_used st) (py_rand st).
Definition set_heap (h : gmap nat rk_state) (st : store) : store :=
  mkStore (np_global st) (current st) h (entropy_used st) (py_rand st).
Definition set_entropy_used (k : nat) (st : store) : store :=
  mkStore (np_global st) (current st) (heap st) k (py_rand st).
Definition set_py_rand (p : py_random) (st : store) : store :=
  mkStore (np_global st) (current st) (heap st) (entropy_used st) p.

(** [random_state.get_state()] *)
Definition get_state (st : store) (r : pyref) : option rk_state :=
  match r with
  | NpRandomModule => Some (np_global st)
  | CurrentRandomState => Some (current st)
  | Obj l => heap st !! l
  end.

(** [random_state.set_state(v)] *)
Definition set_state (st : store) (r : pyref) (v : rk_state) : store :=
  match r with
  | NpRandomModule => set_np_global v st
  | CurrentRandomState => set_current v st
  | Obj l => set_heap (<[l := v]> (heap st)) st
  end.

(** [size] successive integers from one state vector. *)
Fixpoint rk_draws (size : nat) (v : rk_state) : list Z * rk_state :=
  match size with
  | O => ([], v)
  | S k => let '(x, v1) := rk_randint v in
           let '(xs, v2) := rk_draws k v1 in
           (x :: xs, v2)
  end.

(** [random_state.randint(0, 10**6, size)]: returns the array and advances
    the generator behind the reference. *)
Definition randint (st : store) (r : pyref) (size : nat)
  : option (list Z * store) :=
  v ← get_state st r;
  let '(xs, v') := rk_draws size v in
  Some (xs, set_state st r v').

(** Object creation: a fresh address. *)
Definition alloc (v : rk_state) (st : store) : pyref * store :=
  let l := fresh (dom (heap st)) in
  (Obj l, set_heap (<[l := v]> (heap st)) st).

(** [np.random.RandomState(seed)]; [None] when it raises [ValueError]. *)
Definition RandomState (st : store) (seed : option Z)
  : option (pyref * store) :=
  match seed with
  | Some s =>
      if seed_in_range s then Some (alloc (RandomState_seed s) st) else None
  | None => Some (alloc (os_entropy (entropy_used st))
                        (set_entropy_used (S (entropy_used st)) st))
  end.

(** [CURRENT_RANDOM_STATE = np.random.RandomState(42)], created when the
    module is imported. *)
Definition CURRENT_RANDOM_STATE : pyref := CurrentRandomState.

(** The process right after the import; [np0] is whatever numpy's own
    module-level generator holds. *)
Definition import_store (np0 : rk_state) : store :=
  mkStore np0 (RandomState_seed 42) ∅ 0 PyUnseeded.

(** [random_state.seed(seedval)]; [None] when it raises [ValueError]. *)
Definition RandomState_reseed (st : store) (random_state : pyref)
    (seedval : Z) : option store :=
  if seed_in_range seedval then
    Some (set_state st random_state (RandomState_seed seedval))
  else None.

(** [seed(seedval)]: [CURRENT_RANDOM_STATE.seed(seedval)] *)
Definition seed (st : store) (seedval : Z) : option store :=
  RandomState_reseed st CURRENT_RANDOM_STATE seedval.

(** [np.random.seed(seedval)] *)
Definition np_random_seed (st : store) (seedval : Z) : option store :=
  RandomState_reseed st NpRandomModule seedval.

(** [random.seed(seedval)]: Python's own generator takes any integer. *)
Definition random_seed (st : store) (seedval : Z) : store :=
  set_py_rand (PySeeded seedval) st.

(** [current_random_state()] *)
Definition current_random_state : pyref := CURRENT_RANDOM_STATE.

(** [new_random_state(seed=None, fully_random=False)] *)
Definition new_random_state (st : store) (seed : option Z)
    (fully_random : bool) : option (pyref * store) :=
  '(seed1, st1) ←
    match seed with
    | None =>
        if negb fully_random then
          '(arr, st1) ← randint st CURRENT_RANDOM_STATE 1;
          s ← arr !! 0%nat;
          Some (Some s, st1)
        else Some (seed, st)
    | Some _ => Some (seed, st)
    end;
  RandomState st1 seed1.

(** [dummy_random_state()] *)
Definition dummy_random_state (st : store) : option (pyref * store) :=
  RandomState st (Some 1).

(** [copy_random_state(random_state, force_copy=False)].  The test
    [random_state == np.random] compares with the numpy module: RandomState
    defines no equality of its own, so it holds for the module only. *)
Definition copy_random_state (st : store) (random_state : pyref)
    (force_copy : bool) : option (pyref * store) :=
  if bool_decide (random_state = NpRandomModule) && negb force_copy then
    Some (random_state, st)
  else
    '(rs_copy, st1) ← dummy_random_state st;
    orig_state ← get_state st1 random_state;
    Some (rs_copy, set_state st1 rs_copy orig_state).

(** [sm.xrange(n)] *)
Definition xrange (n : Z) : list Z :=
  map Z.of_nat (seq 0 (Z.to_nat n)).

(** The list comprehension [[new_random_state(seed+i) for i in ...]]:
    the calls happen left to right on the same process store. *)
Fixpoint new_random_states (st : store) (seeds : list Z)
  : option (list pyref * store) :=
  match seeds with
  | [] => Some ([], st)
  | s :: rest =>
      '(r, st1) ← new_random_state st (Some s) false;
      '(rs, st2) ← new_random_states st1 rest;
      Some (r :: rs, st2)
  end.

(** [derive_random_states(random_state, n=1)] *)
Definition derive_random_states (st : store) (random_state : pyref) (n : Z)
  : option (list pyref * store) :=
  '(arr, st1) ← randint st random_state 1;
  seed ← arr !! 0%nat;
  new_random_states st1 (map (fun i => seed + i) (xrange n)).

(** [derive_random_state(random_state)] *)
Definition derive_random_state (st : store) (random_state : pyref)
  : option (pyref * store) :=
  '(rs, st1) ← derive_random_states st random_state 1;
  r ← rs !! 0%nat;
  Some (r, st1).

(** The state vectors behind a list of references. *)
Definition states_of (st : store) (rs : list pyref) : list (option rk_state) :=
  map (get_state st) rs.

(** The first [k] integers a state vector yields. *)
Definition draw_sequence (k : nat) (v : rk_state) : list Z :=
  fst (rk_draws k v).

(** A reference to an object that the process does not hold yet. *)
Definition is_new (st : store) (r : pyref) : Prop :=
  exists l, r = Obj l /\ heap st !! l = None.

(** Every state vector readable in [st] reads the same in [st']. *)
Definition keeps (st st' : store) : Prop :=
  forall r v, get_state st r = Some v -> get_state st' r = Some v.

(** The same, except for the object behind [r0]. *)
Definition keeps_but (r0 : pyref) (st st' : store) : Prop :=
  forall r v, r <> r0 -> get_state st r = Some v -> get_state st' r = Some v.

End Generator.

End RandomStates.

(** ** Batches, pickling and the augmenter interface *)

Module Batches.

(** [pickle.dumps(v, protocol=-1)] and [pickle.loads]: what crosses a queue
    is a copy by value of the object. *)
Inductive pickled (A : Type) : Type :=
| Pickled (a : A).
Arguments Pickled {A} a.

Definition pickle_dumps {A : Type} (a : A) : pickled A := Pickled a.
Definition pickle_loads {A : Type} (p : pickled A) : A :=
  match p with Pickled a => a end.

(** The data a batch carries: image arrays, keypoint lists, user data. *)
Class BatchData : Type := {
  Images : Type;
  Keypoints : Type;
  Data : Type
}.

(** [class Batch] *)
Record Batch `{BatchData} : Type := mkBatch {
  images : option Images;
  images_aug : option Images;
  images_gt : option Images;
  images_gt_aug : option Images;
  mask_gt : option Images;
  mask_gt_aug : option Images;
  keypoints : option Keypoints;
  keypoints_aug : option Keypoints;
  data : option Data
}.

Arguments mkBatch {_} _ _ _ _ _ _ _ _ _.

Section Batch.

Context `{BatchData}.

(** [Batch.__init__] *)
Definition Batch_init (images images_gt mask_gt : option Images)
    (keypoints : option Keypoints) (data : option Data) : Batch :=
  mkBatch images None images_gt None mask_gt None keypoints None data.

(** Attribute assignments [batch.x_aug = v]. *)
Definition set_images_aug (v : option Images) (b : Batch) : Batch :=
  mkBatch (images b) v (images_gt b) (images_gt_aug b) (mask_gt b)
          (mask_gt_aug b) (keypoints b) (keypoints_aug b) (data b).
Definition set_images_gt_aug (v : option Images) (b : Batch) : Batch :=
  mkBatch (images b) (images_aug b) (images_gt b) v (mask_gt b)
          (mask_gt_aug b) (keypoints b) (keypoints_aug b) (data b).
Definition set_mask_gt_aug (v : option Images) (b : Batch) : Batch :=
  mkBatch (images b) (images_aug b) (images_gt b) (images_gt_aug b)
          (mask_gt b) v (keypoints b) (keypoints_aug b) (data b).
Definition set_keypoints_aug (v : option Keypoints) (b : Batch) : Batch :=
  mkBatch (images b) (images_aug b) (images_gt b) (images_gt_aug b)
          (mask_gt b) (mask_gt_aug b) (keypoints b) v (data b).

(** Two batches with the same fields from before the augmentation. *)
Definition same_inputs (b b' : Batch) : Prop :=
  images b' = images b /\ images_gt b' = images_gt b
  /\ mask_gt b' = mask_gt b /\ keypoints b' = keypoints b
  /\ data b' = data b.

(** [x is not None] *)
Definition is_not_None {A : Type} (x : option A) : bool :=
  match x with Some _ => true | None => false end.

End Batch.

(** The augmentation pipeline, as the workers use it.  A call may raise
    ([inl]); otherwise it returns its result together with the augmenter
    after the call, whose random state the call may have advanced.  The
    failures [aug_exn] are the augmenters' own: the queue module's [Empty]
    is not among them. *)
Class Augmenter `{BatchData} : Type := {
  aug : Type;
  aug_exn : Type;
  (** the attribute [.deterministic] *)
  deterministic : aug -> bool;
  (** the truth value of the object in [if augseq_X:] *)
  aug_truth : aug -> bool;
  (** [.to_deterministic()]: the frozen copy, and the augmenter itself *)
  to_deterministic : aug -> aug_exn + (aug * aug);
  (** [.augment_images(x)]; the argument is whatever the attribute holds *)
  augment_images : aug -> option Images -> aug_exn + (option Images * aug);
  (** [.augment_keypoints(x)] *)
  augment_keypoints :
    aug -> option Keypoints -> aug_exn + (option Keypoints * aug);
  (** [.reseed(seedval)] *)
  reseed : aug -> Z -> aug
}.

(** Sequencing of calls that may raise. *)
Definition bind_exn {E A B : Type} (m : E + A) (k : A -> E + B) : E + B :=
  match m with
  | inl e => inl e
  | inr a => k a
  end.

Notation "'let!' x ':=' m 'in' k" := (bind_exn m (fun x => k))
  (at level 10, x pattern, m at level 200, k at level 200).

(** What the standard library decides and the module does not. *)
Class Platform : Type := {
  (** [multiprocessing.cpu_count()], [None] when it raises
      [NotImplementedError] *)
  cpu_count : option Z;
  (** whether [Queue.get] on a queue this process has closed raises
      (instead of timing out with [Empty]) *)
  closed_get_raises : bool
}.

End Batches.

(** ** [class BatchLoader] *)

Module BatchLoader.
Import RandomStates Batches.

(** [multiprocessing.Queue(maxsize)] holding pickled values. *)
Record Queue (A : Type) : Type := mkQueue {
  maxsize : Z;
  items : list A;
  closed : bool
}.
Arguments mkQueue {A} _ _ _.
Arguments maxsize {A} _.
Arguments items {A} _.
Arguments closed {A} _.

(** What the user's generator can throw at the loop: all of it is taken to
    be an instance of [Exception], the class the handler names. *)
Class UserCode : Type := {
  GenExn : Type
}.

Section Loader.

Context `{BatchData} {G : Generator} {P : Platform} {U : UserCode}.

(** One [next()] on the iterator [load_batch_func()] returns: a value (a
    [Batch], or an object of another class), an exception, or nothing at
    all when the generator blocks for good.  The end of the list is
    [StopIteration]. *)
Inductive yielded : Type :=
| IsBatch (b : Batch)
| NotBatch.

Inductive gen_step : Type :=
| Yield (v : yielded)
| GenRaise (e : GenExn)
| GenBlock.

(** Exceptions inside the [try] of [_load_batches]. *)
Inductive Exception : Type :=
| AssertionError        (* from [do_assert] *)
| Raised (e : GenExn).

(** What a worker does that others can see. *)
Inductive action : Type :=
| Put (batch_pickled : pickled Batch)   (* a [queue.put] that succeeded *)
| PrintExc (exc : Exception)            (* [traceback.print_exc()] *)
| SetFinished.                          (* [finished_signal.set()] *)

(** What the worker finds each time it looks at the shared objects: is the
    join signal set, and would a [put] with its timeout find the queue
    full. *)
Record tick : Type := mkTick {
  join_set : bool;
  queue_full : bool
}.

(** How the [for] loop ends; the last two are no ends: the observations ran
    out with the worker still looping, or [next()] never returns. *)
Inductive loop_end : Type :=
| Finished (exc : option Exception)
| OutOfTicks
| InGenerator.

Inductive status : Type :=
| Exited
| Running
| Stuck
| Crashed.    (* an exception left the function: the thread or process is
                 over and nothing was set *)

(** The inner loop
    [while not join_signal.is_set(): try: queue.put(..., timeout=0.001);
    break; except QueueFull: pass]:
    whether the batch was put, and the observations left. *)
Fixpoint put_loop (env : list tick) : option (bool * list tick) :=
  match env with
  | [] => None
  | t :: env' =>
      if join_set t then Some (false, env')
      else if queue_full t then put_loop env'
      else Some (true, env')
  end.

(** The body of the [try]: [for batch in load_batch_func(): ...] *)
Fixpoint for_batches (gen : list gen_step) (env : list tick)
  : list action * loop_end :=
  match gen with
  | [] => ([], Finished None)
  | GenBlock :: _ => ([], InGenerator)
  | GenRaise e :: _ => ([], Finished (Some (Raised e)))
  | Yield NotBatch :: _ => ([], Finished (Some AssertionError))
  | Yield (IsBatch batch) :: gen' =>
      let batch_pickled := pickle_dumps batch in
      match put_loop env with
      | None => ([], OutOfTicks)
      | Some (was_put, env1) =>
          let acts := if was_put : bool then [Put batch_pickled] else [] in
          match env1 with
          | [] => (acts, OutOfTicks)
          | t :: env2 =>
              if join_set t then (acts, Finished None)
              else let '(rest, e) := for_batches gen' env2 in
                   (acts ++ rest, e)
          end
      end
  end.

(** [if seedval is not None: random.seed(seedval);
    np.random.seed(seedval); seed(seedval)]: the store after it ([inr]), or
    the store at the moment numpy raised [ValueError] ([inl]). *)
Definition reseeded (st : store) (seedval : option Z) : store + store :=
  match seedval with
  | Some s =>
      let st1 := random_seed st s in
      match np_random_seed st1 s with
      | None => inl st1
      | Some st2 =>
          match seed st2 s with
          | None => inl st2
          | Some st3 => inr st3
          end
      end
  | None => inr st
  end.

(** [BatchLoader._load_batches]: the reseeding, which is outside the [try],
    then
    [try: ... except Exception: traceback.print_exc()
     finally: finished_signal.set()]. *)
Definition _load_batches (st : store) (gen : list gen_step)
    (env : list tick) (seedval : option Z)
  : store * list action * status :=
  match reseeded st seedval with
  | inl st1 => (st1, [], Crashed)
  | inr st1 =>
      let '(acts, e) := for_batches gen env in
      match e with
      | Finished None => (st1, acts ++ [SetFinished], Exited)
      | Finished (Some exc) =>
          (st1, acts ++ [PrintExc exc; SetFinished], Exited)
      | OutOfTicks => (st1, acts, Running)
      | InGenerator => (st1, acts, Stuck)
      end
  end.

(** A worker of the loader: the [seedval] it was started with and what its
    iterator will still do. *)
Record worker : Type := mkWorker {
  w_seedval : option Z;
  w_gen : list gen_step
}.

Record BatchLoader : Type := mkLoader {
  queue : Queue (pickled Batch);
  join_signal : bool;
  finished_signals : list bool;
  workers : list worker;
  threaded : bool
}.

(** [BatchLoader.__init__]; [None] when a [do_assert] raises.  A thread is
    started with [seedval] [None], a process with its entry of [seeds]. *)
Definition BatchLoader_init (st : store) (load_batch_func : list gen_step)
    (queue_size nb_workers : Z) (threaded : bool)
  : option (BatchLoader * store) :=
  if negb (0 <? queue_size) then None
  else if negb (1 <=? nb_workers) then None
  else
    '(seeds, st1) ← randint st current_random_state (Z.to_nat nb_workers);
    let mk (s : Z) := mkWorker (if threaded then None else Some s)
                               load_batch_func in
    Some (mkLoader (mkQueue queue_size [] false) false
                   (map (fun _ => false) seeds) (map mk seeds) threaded,
          st1).

(** [BatchLoader.all_finished] *)
Definition all_finished (self : BatchLoader) : bool :=
  forallb id (finished_signals self).

(** The items a generator yields when all of them are batches. *)
Definition yields (bs : list Batch) : list gen_step :=
  map (fun b => Yield (IsBatch b)) bs.

(** Every worker of the list run on its own observations. *)
Definition run_workers (st : store)
    (ws : list (worker * list tick)) : list (list action * status) :=
  map (fun we => let '(_, acts, s) :=
                   _load_batches st (w_gen (fst we)) (snd we)
                                 (w_seedval (fst we)) in (acts, s)) ws.

(** How a call ends. *)
Inductive outcome : Type :=
| Returns (self : BatchLoader)
| Raises (self : BatchLoader)
| BlocksForever.

(** The loop [while True: try: self.queue.get(timeout=0.005)
    except QueueEmpty: break] over what the queue holds. *)
Fixpoint drain (its : list (pickled Batch)) : list (pickled Batch) :=
  match its with
  | [] => []
  | _ :: rest => drain rest
  end.

(** With the join signal set a worker leaves its loops at the next test. *)
Definition tick_stopped : tick := mkTick true false.

(** [worker.join()] on a thread: returns once the thread is over, which
    its own [finally] marks.  A thread whose flag is set is over. *)
Definition join_thread (flags : list bool) (i : nat) (w : worker)
  : option (list bool) :=
  match flags !! i with
  | Some true => Some flags
  | _ =>
      match snd (for_batches (w_gen w) [tick_stopped; tick_stopped]) with
      | Finished _ => Some (<[i := true]> flags)
      | _ => None
      end
  end.

(** A worker whose thread is inside a [next()] that does not return. *)
Definition stuck_in_generator (w : worker) : bool :=
  match w_gen w with
  | GenBlock :: _ => true
  | _ => false
  end.

(** [for worker in self.workers: worker.join()] *)
Fixpoint join_threads (flags : list bool) (i : nat) (ws : list worker)
  : option (list bool) :=
  match ws with
  | [] => Some flags
  | w :: rest =>
      flags1 ← join_thread flags i w;
      join_threads flags1 (S i) rest
  end.

(** [BatchLoader.terminate]; [inflight] are the puts that were under way
    when the join signal was set and land during the [sleep]. *)
Definition terminate (self : BatchLoader)
    (inflight : list (pickled Batch)) : outcome :=
  let q := queue self in
  let self1 := mkLoader (mkQueue (maxsize q) (items q ++ inflight) (closed q))
                        true (finished_signals self) (workers self)
                        (threaded self) in
  if closed q && closed_get_raises then Raises self1
  else
    let q1 := mkQueue (maxsize q) (drain (items q ++ inflight)) (closed q) in
    if threaded self then
      match join_threads (finished_signals self) 0 (workers self) with
      | None => BlocksForever
      | Some flags =>
          Returns (mkLoader (mkQueue (maxsize q1) (items q1) true) true
                            flags (workers self) (threaded self))
      end
    else
      (* worker.terminate(); worker.join() on processes *)
      let flags := map (fun _ => true) (finished_signals self) in
      Returns (mkLoader (mkQueue (maxsize q1) (items q1) true) true
                        flags (workers self) (threaded self)).

End Loader.

End BatchLoader.

(** ** [class BackgroundAugmenter] *)

Module BackgroundAugmenter.
Import RandomStates Batches.

Section Augmenter.

Context `{A : Augmenter} {G : Generator} {P : Platform}.

(** A message of the result queue: a pickled batch, or pickled [None]. *)
Definition message : Type := pickled (option Batch).

Record BackgroundAugmenter : Type := mkAugmenter {
  augseq : aug;
  augseq_X : option aug;
  augseq_gt : option aug;
  queue_result : list message;       (* what [queue_result.get()] will see *)
  nb_workers : Z;
  nb_workers_finished : Z;
  self_augment_images : bool;
  self_augment_images_gt : bool;
  self_augment_keypoints : bool;
  worker_seeds : list Z
}.

(** [BackgroundAugmenter.__init__]; [nb_workers] is [None] for ["auto"].
    [None] as a result: a [do_assert] raised. *)
Definition BackgroundAugmenter_init (st : store) (augseq : aug)
    (augseq_X augseq_gt : option aug) (queue_size : Z)
    (nb_workers : option Z) : option (BackgroundAugmenter * store) :=
  if negb (0 <? queue_size) then None
  else
    nb ← match nb_workers with
         | None =>
             let n := match cpu_count with Some c => c | None => 1 end in
             Some (Z.max 1 (n - 1))
         | Some n => if 1 <=? n then Some n else None
         end;
    '(seeds, st1) ← randint st current_random_state (Z.to_nat nb);
    Some (mkAugmenter augseq augseq_X augseq_gt [] nb 0 true true true seeds,
          st1).

(** How a call of [get_batch] ends: with a batch, with [None], or not at
    all, when nothing is left that the queue will ever deliver. *)
Inductive got : Type :=
| ReturnsBatch (batch : Batch)
| ReturnsNone
| Blocks.

(** [BackgroundAugmenter.get_batch]: the result, the queue and the counter
    after the call. *)
Fixpoint get_batch (nb_workers : Z) (queue_result : list message)
    (nb_workers_finished : Z) : got * (list message * Z) :=
  match queue_result with
  | [] => (Blocks, ([], nb_workers_finished))
  | batch_str :: rest =>
      match pickle_loads batch_str with
      | Some batch => (ReturnsBatch batch, (rest, nb_workers_finished))
      | None =>
          let finished := nb_workers_finished + 1 in
          if finished =? nb_workers then (ReturnsNone, (rest, finished))
          else get_batch nb_workers rest finished
      end
  end.

(** [calls] calls of [get_batch] in a row, as a training loop makes them. *)
Fixpoint get_batches (calls : nat) (nb_workers : Z)
    (queue_result : list message) (nb_workers_finished : Z)
  : list got * (list message * Z) :=
  match calls with
  | O => ([], (queue_result, nb_workers_finished))
  | S k =>
      let '(r, (q, f)) := get_batch nb_workers queue_result
                                    nb_workers_finished in
      let '(rs, qf) := get_batches k nb_workers q f in
      (r :: rs, qf)
  end.

(** The three augmenters of one worker process. *)
Record worker_state : Type := mkWS {
  w_augseq : aug;
  w_augseq_X : option aug;
  w_augseq_gt : option aug
}.

(** [a.to_deterministic() if not a.deterministic else a], and what runs on
    the result: when [a] is deterministic the calls are on [a] itself. *)
Definition with_det {R : Type} (a : aug)
    (body : aug -> aug_exn + (R * aug)) : aug_exn + (R * aug) :=
  if deterministic a then body a
  else
    let! (a_det, a1) := to_deterministic a in
    let! (r, _) := body a_det in
    inr (r, a1).

(** [if augseq_X:] *)
Definition truthy (o : option aug) : bool :=
  match o with
  | Some a => aug_truth a
  | None => false
  end.

(** The part of the worker loop between [pickle.loads] and
    [pickle.dumps]. *)
Definition augment_batch (self : BackgroundAugmenter) (ws : worker_state)
    (batch : Batch) : aug_exn + (Batch * worker_state) :=
  let batch_augment_images :=
    is_not_None (images batch) && self_augment_images self in
  let batch_augment_images_gt :=
    is_not_None (images_gt batch) && self_augment_images_gt self in
  let batch_augment_keypoints :=
    is_not_None (keypoints batch) && self_augment_keypoints self in
  if batch_augment_images && batch_augment_keypoints then
    let! (batch1, a1) :=
      with_det (w_augseq ws) (fun augseq_det =>
        let! (ia, d1) := augment_images augseq_det (images batch) in
        let! (ka, d2) := augment_keypoints d1 (keypoints batch) in
        inr (set_keypoints_aug ka (set_images_aug ia batch), d2)) in
    inr (batch1, mkWS a1 (w_augseq_X ws) (w_augseq_gt ws))
  else if batch_augment_images && batch_augment_images_gt then
    let! (batch1, a1) :=
      with_det (w_augseq ws) (fun augseq_det =>
        let! (ia, d1) := augment_images augseq_det (images batch) in
        let! (ga, d2) := augment_images d1 (images_gt batch) in
        let! (ma, d3) := augment_images d2 (mask_gt batch) in
        inr (set_mask_gt_aug ma
               (set_images_gt_aug ga (set_images_aug ia batch)), d3)) in
    let! (batch2, x1) :=
      match w_augseq_X ws with
      | Some x =>
          if aug_truth x then
            let! (ia, x') := augment_images x (images_aug batch1) in
            inr (set_images_aug ia batch1, Some x')
          else inr (batch1, Some x)
      | None => inr (batch1, None)
      end in
    let! (batch3, g1) :=
      match w_augseq_gt ws with
      | Some g =>
          if aug_truth g then
            let! (b, g') :=
              with_det g (fun augseq_gt_det =>
                let! (ga, d1) :=
                  augment_images augseq_gt_det (images_gt_aug batch2) in
                let! (ma, d2) := augment_images d1 (mask_gt_aug batch2) in
                inr (set_mask_gt_aug ma (set_images_gt_aug ga batch2), d2)) in
            inr (b, Some g')
          else inr (batch2, Some g)
      | None => inr (batch2, None)
      end in
    inr (batch3, mkWS a1 x1 g1)
  else if batch_augment_images then
    let! (ia, a1) := augment_images (w_augseq ws) (images batch) in
    inr (set_images_aug ia batch, mkWS a1 (w_augseq_X ws) (w_augseq_gt ws))
  else if batch_augment_keypoints then
    let! (ka, a1) := augment_keypoints (w_augseq ws) (keypoints batch) in
    inr (set_keypoints_aug ka batch,
         mkWS a1 (w_augseq_X ws) (w_augseq_gt ws))
  else inr (batch, ws).

(** What [queue_source.get(timeout=0.1)] gives a worker: a pickled batch,
    or the [QueueEmpty] timeout, with the producers' finished flags as the
    handler then reads them. *)
Inductive poll : Type :=
| Got (batch_str : pickled Batch)
| TimedOut (source_finished_signals : list bool).

(** Where a worker is after the polls it was given: still in its loop,
    returned, or dead from an exception nothing caught. *)
Inductive wstatus : Type :=
| InLoop
| Returned
| Died (e : aug_exn).

(** The [while True:] loop of the worker: the messages it puts on the
    result queue, in order, its status and its augmenters. *)
Fixpoint worker_loop (self : BackgroundAugmenter) (ws : worker_state)
    (polls : list poll) : list message * wstatus * worker_state :=
  match polls with
  | [] => ([], InLoop, ws)
  | Got batch_str :: rest =>
      let batch := pickle_loads batch_str in
      match augment_batch self ws batch with
      | inl e => ([], Died e, ws)
      | inr (batch', ws') =>
          let '(out, s, wsf) := worker_loop self ws' rest in
          (pickle_dumps (Some batch') :: out, s, wsf)
      end
  | TimedOut source_finished_signals :: rest =>
      if forallb id source_finished_signals then
        ([pickle_dumps None], Returned, ws)
      else worker_loop self ws rest
  end.

(** [truthy]-guarded [.reseed(seedval)] *)
Definition reseed_if (o : option aug) (seedval : Z) : option aug :=
  match o with
  | Some a => if aug_truth a then Some (reseed a seedval) else Some a
  | None => None
  end.

(** [BackgroundAugmenter._augment_images_worker], on the worker process's
    own copy [st] of the parent's state; [None] when numpy refuses the seed
    and the worker is over before its loop. *)
Definition _augment_images_worker (self : BackgroundAugmenter) (st : store)
    (augseq : aug) (augseq_X augseq_gt : option aug) (polls : list poll)
    (seedval : Z)
  : option (store * (list message * wstatus * worker_state)) :=
  st1 ← np_random_seed st seedval;
  let st2 := random_seed st1 seedval in
  let ws := mkWS (reseed augseq seedval) (reseed_if augseq_X seedval)
                 (reseed_if augseq_gt seedval) in
  st3 ← seed st2 seedval;
  Some (st3, worker_loop self ws polls).

(** The batches a worker took from the source queue before it left. *)
Fixpoint taken (polls : list poll) : list (pickled Batch) :=
  match polls with
  | [] => []
  | Got batch_str :: rest => batch_str :: taken rest
  | TimedOut signals :: rest =>
      if forallb id signals then [] else taken rest
  end.

(** A worker's run: its augmenters at the start and what its polls of the
    source queue give; the messages it puts and how it ends. *)
Definition worker_output (self : BackgroundAugmenter)
    (run : worker_state * list poll) : list message :=
  fst (fst (worker_loop self (fst run) (snd run))).



(** The batches among the messages, and the number of sentinels. *)
Definition payloads (q : list message) : list Batch :=
  omap pickle_loads q.

(** Batches as messages. *)
Definition messages (bs : list Batch) : list message :=
  map (fun b => pickle_dumps (Some b)) bs.

End Augmenter.


End BackgroundAugmenter.

(** ** Small concrete instances, to run the definitions on *)

Module Toy.
Import RandomStates Batches BatchLoader BackgroundAugmenter.

(** A linear congruential generator in the place of numpy's. *)
#[export] Instance lcg : Generator := {|
  rk_state := Z;
  RandomState_seed := fun s => s;
  rk_randint := fun v => (v mod 1000000, (v * 1103515245 + 12345) mod 2147483648);
  os_entropy := fun k => Z.of_nat k + 977;
  rk_randint_range := fun v => Z.mod_pos_bound v 1000000 eq_refl
|}.

(** Images as pixel rows, keypoints as coordinate pairs. *)
#[export] Instance arrays : BatchData := {|
  Images := list Z;
  Keypoints := list (Z * Z);
  Data := nat
|}.

(** An augmenter that mirrors what it is given and counts its calls; like
    the real ones it fails on [None]. *)
#[export] Instance mirror : Augmenter := {|
  aug := bool * Z;
  aug_exn := unit;
  deterministic := fun a => fst a;
  aug_truth := fun _ => true;
  to_deterministic := fun a => inr ((true, snd a), (fst a, snd a + 1));
  augment_images := fun a x =>
    match x with
    | Some l => inr (Some (rev l), (fst a, snd a + 1))
    | None => inl tt
    end;
  augment_keypoints := fun a x =>
    match x with
    | Some l => inr (Some (map (fun p => (9 - fst p, snd p)) l),
                     (fst a, snd a + 1))
    | None => inl tt
    end;
  reseed := fun a s => (fst a, s)
|}.

#[export] Instance user : UserCode := {|
  GenExn := unit
|}.

#[export] Instance cpython : Platform := {|
  cpu_count := Some 4;
  closed_get_raises := true
|}.

Definition st0 : store := import_store 7.

Definition self0 : BackgroundAugmenter :=
  mkAugmenter (false, 0) None None [] 2 0 true true true [11; 12].

Definition augseq0 : aug := (false, 0).
Definition ws0 : worker_state := mkWS (false, 0) None None.
(** The same worker one call later. *)
Definition ws1 : worker_state := mkWS (false, 1) None None.

Definition only_images : Batch :=
  Batch_init (Some [1; 2; 3]) None None None (Some 5%nat).
Definition only_keypoints : Batch :=
  Batch_init None None None (Some [(1, 2)]) None.
Definition only_images_gt : Batch :=
  Batch_init None (Some [4; 5; 6]) None None None.
(** Images with ground truth but no mask: the mask call fails. *)
Definition no_mask : Batch :=
  Batch_init (Some [1; 2]) (Some [3; 4]) None None None.

(** Images, keypoints and ground truth at once, and the result. *)
Definition all_three : Batch :=
  Batch_init (Some [1; 2]) (Some [3; 4]) None (Some [(1, 2)]) None.
Definition all_three_done : Batch :=
  set_keypoints_aug (Some [(8, 2)]) (set_images_aug (Some [2; 1]) all_three).

(** A thread-mode loader whose only worker sits in a generator that does
    not come back. *)
Definition hanging_loader : BatchLoader.BatchLoader :=
  mkLoader (mkQueue 50 [] false) false [false]
           [mkWorker None [GenBlock]] true.

(** A process-mode loader with a batch on the queue, one worker inside a
    generator that does not come back, one between two batches. *)
Definition process_loader : BatchLoader.BatchLoader :=
  mkLoader (mkQueue 50 [pickle_dumps only_images] false) false [false; false]
           [mkWorker (Some 5) [GenBlock];
            mkWorker (Some 6) [Yield (IsBatch only_keypoints)]] false.

(** What [mirror] makes of the two one-stream batches. *)
Definition images_done : Batch :=
  set_images_aug (Some [3; 2; 1]) only_images.
Definition keypoints_done : Batch :=
  set_keypoints_aug (Some [(8, 2)]) only_keypoints.

(** Two consumer workers, the batches of the source queue, and an order in
    which their messages can reach the result queue. *)
Definition runs0 : list (worker_state * list poll) :=
  [ (ws0, [Got (pickle_dumps only_images); TimedOut [true]]);
    (ws0, [TimedOut [false]; Got (pickle_dumps only_keypoints);
           TimedOut [true; true]]) ].
Definition src0 : list (pickled Batch) :=
  [pickle_dumps only_images; pickle_dumps only_keypoints].
Definition tr0 : list message :=
  [pickle_dumps (Some keypoints_done); pickle_dumps (Some images_done);
   pickle_dumps None; pickle_dumps None].



End Toy.

(** ** Bounding boxes and keypoints with integer coordinates

    The coordinates are "numbers" in the source; the embedding takes the
    Python integers, on which [+], [-], [*], the comparisons, [min], [max]
    and [np.clip] are exact.  What divides ([project], [center_x], the
    quotient of [iou]) is left out or stopped before the division. *)

Module Geometry.

(** The labels a bounding box may carry. *)
Class Labels : Type := {
  Label : Type
}.

(** An image shape: a tuple with at least [height] and [width]. *)
Record shape : Type := mkShape {
  sh_height : Z;
  sh_width : Z;
  sh_rest : list Z
}.

(** [class Keypoint] *)
Record Keypoint : Type := mkKeypoint {
  kp_x : Z;
  kp_y : Z
}.

(** [Keypoint.x_int], [Keypoint.y_int]: [int(round(x))] of an integer *)
Definition x_int (kp : Keypoint) : Z := kp_x kp.
Definition y_int (kp : Keypoint) : Z := kp_y kp.

(** [Keypoint.shift] *)
Definition Keypoint_shift (self : Keypoint) (x y : Z) : Keypoint :=
  mkKeypoint (kp_x self + x) (kp_y self + y).

(** [class KeypointsOnImage] *)
Record KeypointsOnImage : Type := mkKeypointsOnImage {
  keypoints : list Keypoint;
  kps_shape : shape
}.

(** [KeypointsOnImage.shift] *)
Definition KeypointsOnImage_shift (self : KeypointsOnImage) (x y : Z)
  : KeypointsOnImage :=
  mkKeypointsOnImage (map (fun keypoint => Keypoint_shift keypoint x y)
                          (keypoints self))
                     (kps_shape self).

(** [KeypointsOnImage.deepcopy] *)
Definition KeypointsOnImage_deepcopy (self : KeypointsOnImage)
  : KeypointsOnImage :=
  mkKeypointsOnImage (map (fun kp => mkKeypoint (kp_x kp) (kp_y kp))
                          (keypoints self))
                     (kps_shape self).

(** [KeypointsOnImage.empty] *)
Definition KeypointsOnImage_empty (self : KeypointsOnImage) : bool :=
  (length (keypoints self) =? 0)%nat.

(** [np.clip(v, lo, hi)] *)
Definition np_clip (v lo hi : Z) : Z := Z.min (Z.max v lo) hi.

(** [class BoundingBox] *)
Record BoundingBox `{Labels} : Type := mkBoundingBox {
  x1 : Z;
  y1 : Z;
  x2 : Z;
  y2 : Z;
  label : option Label
}.

Arguments mkBoundingBox {_} _ _ _ _ _.

Section Boxes.

Context `{Labels}.

(** [BoundingBox.__init__]; [None] when a [do_assert] raises. *)
Definition BoundingBox_init (x1 y1 x2 y2 : Z) (label : option Label)
  : option BoundingBox :=
  let '(x1, x2) := if x1 >? x2 then (x2, x1) else (x1, x2) in
  if negb (x2 >? x1) then None
  else
    let '(y1, y2) := if y1 >? y2 then (y2, y1) else (y1, y2) in
    if negb (y2 >? y1) then None
    else Some (mkBoundingBox x1 y1 x2 y2 label).

(** [x1_int] and the like: [int(round(...))] of an integer *)
Definition x1_int (self : BoundingBox) : Z := x1 self.
Definition y1_int (self : BoundingBox) : Z := y1 self.
Definition x2_int (self : BoundingBox) : Z := x2 self.
Definition y2_int (self : BoundingBox) : Z := y2 self.

(** [BoundingBox.height], [.width], [.area] *)
Definition height (self : BoundingBox) : Z := y2 self - y1 self.
Definition width (self : BoundingBox) : Z := x2 self - x1 self.
Definition area (self : BoundingBox) : Z := height self * width self.

(** [BoundingBox.copy]; an argument [None] stands for "not given". *)
Definition copy (self : BoundingBox) (nx1 ny1 nx2 ny2 : option Z)
    (nlabel : option Label) : option BoundingBox :=
  BoundingBox_init
    (match nx1 with None => x1 self | Some v => v end)
    (match ny1 with None => y1 self | Some v => v end)
    (match nx2 with None => x2 self | Some v => v end)
    (match ny2 with None => y2 self | Some v => v end)
    (match nlabel with None => label self | Some l => Some l end).

(** [BoundingBox.deepcopy] *)
Definition deepcopy (self : BoundingBox) (nx1 ny1 nx2 ny2 : option Z)
    (nlabel : option Label) : option BoundingBox :=
  copy self nx1 ny1 nx2 ny2 nlabel.

(** [BoundingBox.extend], on integer coordinates and amounts *)
Definition extend (self : BoundingBox) (all_sides top right bottom left : Z)
  : option BoundingBox :=
  BoundingBox_init (x1 self - all_sides - left) (y1 self - all_sides - top)
                   (x2 self + all_sides + right) (y2 self + all_sides + bottom)
                   None.

(** [BoundingBox.intersection]: [inl default], or the box. *)
Definition intersection {D : Type} (self other : BoundingBox) (default : D)
  : option (D + BoundingBox) :=
  let x1_i := Z.max (x1 self) (x1 other) in
  let y1_i := Z.max (y1 self) (y1 other) in
  let x2_i := Z.min (x2 self) (x2 other) in
  let y2_i := Z.min (y2 self) (y2 other) in
  if (x1_i >=? x2_i) || (y1_i >=? y2_i) then Some (inl default)
  else inr <$> BoundingBox_init x1_i y1_i x2_i y2_i None.

(** [BoundingBox.union] *)
Definition union (self other : BoundingBox) : option BoundingBox :=
  BoundingBox_init (Z.min (x1 self) (x1 other)) (Z.min (y1 self) (y1 other))
                   (Z.max (x2 self) (x2 other)) (Z.max (y2 self) (y2 other))
                   None.

(** What [iou] returns: the integer [0], or a quotient [num / den] of two
    integers that Python then divides. *)
Inductive quotient : Type :=
| Zero
| Ratio (num den : Z).

(** [BoundingBox.iou]; [None] when an assertion or the division raises. *)
Definition iou (self other : BoundingBox) : option quotient :=
  inters ← intersection self other tt;
  match inters with
  | inl _ => Some Zero
  | inr inters =>
      let den := area self + area other - area inters in
      if den =? 0 then None else Some (Ratio (area inters) den)
  end.

(** [BoundingBox.is_fully_within_image] *)
Definition is_fully_within_image (self : BoundingBox) (image : shape) : bool :=
  (x1 self >=? 0) && (x2 self <=? sh_width image)
  && (y1 self >=? 0) && (y2 self <=? sh_height image).

(** [BoundingBox.is_partly_within_image] *)
Definition is_partly_within_image (self : BoundingBox) (image : shape)
  : option bool :=
  img_bb ← BoundingBox_init 0 0 (sh_width image) (sh_height image) None;
  inters ← intersection self img_bb tt;
  Some (match inters with inl _ => false | inr _ => true end).

(** [BoundingBox.is_out_of_image] *)
Definition is_out_of_image (self : BoundingBox) (image : shape)
    (fully partly : bool) : option bool :=
  if is_fully_within_image self image then Some false
  else
    p ← is_partly_within_image self image;
    Some (if p : bool then partly else fully).

(** [BoundingBox.cut_out_of_image] *)
Definition cut_out_of_image (self : BoundingBox) (image : shape)
  : option BoundingBox :=
  if negb (sh_height image >? 0) then None
  else if negb (sh_width image >? 0) then None
  else
    copy self (Some (np_clip (x1 self) 0 (sh_width image)))
              (Some (np_clip (y1 self) 0 (sh_height image)))
              (Some (np_clip (x2 self) 0 (sh_width image)))
              (Some (np_clip (y2 self) 0 (sh_height image)))
              (label self).

(** [BoundingBox.shift], on integer coordinates and amounts *)
Definition shift (self : BoundingBox) (top right bottom left : option Z)
  : option BoundingBox :=
  let top := match top with Some v => v | None => 0 end in
  let right := match right with Some v => v | None => 0 end in
  let bottom := match bottom with Some v => v | None => 0 end in
  let left := match left with Some v => v | None => 0 end in
  copy self (Some (x1 self + left - right)) (Some (y1 self + top - bottom))
            (Some (x2 self + left - right)) (Some (y2 self + top - bottom))
            None.

(** [BoundingBox.to_keypoints] *)
Definition to_keypoints (self : BoundingBox) : list Keypoint :=
  [ mkKeypoint (x1 self) (y1 self); mkKeypoint (x2 self) (y1 self);
    mkKeypoint (x2 self) (y2 self); mkKeypoint (x1 self) (y2 self) ].

(** [class BoundingBoxesOnImage] *)
Record BoundingBoxesOnImage : Type := mkBoundingBoxesOnImage {
  bounding_boxes : list BoundingBox;
  bbs_shape : shape
}.

(** A list comprehension [[f(bb) for bb in bbs if p(bb)]] whose test and
    body may raise: left to right, the first exception ends it. *)
Fixpoint comprehension {X Y : Type} (p : X -> option bool)
    (f : X -> option Y) (l : list X) : option (list Y) :=
  match l with
  | [] => Some []
  | x :: rest =>
      keep ← p x;
      if keep : bool then
        y ← f x;
        ys ← comprehension p f rest;
        Some (y :: ys)
      else comprehension p f rest
  end.

(** [BoundingBoxesOnImage.remove_out_of_image] *)
Definition remove_out_of_image (self : BoundingBoxesOnImage)
    (fully partly : bool) : option BoundingBoxesOnImage :=
  bbs_clean ← comprehension
                (fun bb => negb <$> is_out_of_image bb (bbs_shape self)
                                                    fully partly)
                Some (bounding_boxes self);
  Some (mkBoundingBoxesOnImage bbs_clean (bbs_shape self)).

(** [BoundingBoxesOnImage.cut_out_of_image] *)
Definition BoundingBoxesOnImage_cut_out_of_image (self : BoundingBoxesOnImage)
  : option BoundingBoxesOnImage :=
  bbs_cut ← comprehension
              (fun bb => is_partly_within_image bb (bbs_shape self))
              (fun bb => cut_out_of_image bb (bbs_shape self))
              (bounding_boxes self);
  Some (mkBoundingBoxesOnImage bbs_cut (bbs_shape self)).

(** [BoundingBoxesOnImage.shift] *)
Definition BoundingBoxesOnImage_shift (self : BoundingBoxesOnImage)
    (top right bottom left : option Z) : option BoundingBoxesOnImage :=
  bbs_new ← comprehension (fun _ => Some true)
              (fun bb => shift bb top right bottom left)
              (bounding_boxes self);
  Some (mkBoundingBoxesOnImage bbs_new (bbs_shape self)).

(** [BoundingBoxesOnImage.empty] *)
Definition BoundingBoxesOnImage_empty (self : BoundingBoxesOnImage) : bool :=
  (length (bounding_boxes self) =? 0)%nat.

(** A box as its constructor leaves it. *)
Definition valid (bb : BoundingBox) : Prop :=
  x1 bb < x2 bb /\ y1 bb < y2 bb.

(** The points of [a] are points of [b]. *)
Definition inside (a b : BoundingBox) : Prop :=
  x1 b <= x1 a /\ x2 a <= x2 b /\ y1 b <= y1 a /\ y2 a <= y2 b.

End Boxes.

End Geometry.

(** ** Arrays: bounding-box extraction and keypoint images

    A two-dimensional numpy array is its shape and its rows; a pixel is a
    value of some type with a zero (a number for an (H,W) image, the
    channels of one position for an (H,W,C) one). *)

Module Arrays.
Import Geometry.

(** The normalised bounds of a Python slice [a:b] on an axis of length
    [len]: a negative index counts from the end, everything is clamped. *)
Definition slice_bound (len : nat) (a : Z) : nat :=
  if a <? 0 then Z.to_nat (Z.max (a + Z.of_nat len) 0)
  else Nat.min (Z.to_nat a) len.

(** [l[a:b]] *)
Definition slice {X : Type} (l : list X) (a b : Z) : list X :=
  let lo := slice_bound (length l) a in
  let hi := slice_bound (length l) b in
  take (hi - lo) (drop lo l).

(** [l[a:b] = v] in every position of the slice, by [f] *)
Definition slice_update {X : Type} (f : X -> X) (a b : Z) (l : list X)
  : list X :=
  let lo := slice_bound (length l) a in
  let hi := slice_bound (length l) b in
  imap (fun k x => if (lo <=? k)%nat && (k <? hi)%nat then f x else x) l.

Section Images.

Context {Px : Type} (zero : Px).

(** An array of shape [(im_height, im_width)] (and the pixels' own). *)
Record image : Type := mkImage {
  im_height : nat;
  im_width : nat;
  im_rows : list (list Px)
}.

(** What numpy guarantees of an array. *)
Definition well_shaped (im : image) : Prop :=
  length (im_rows im) = im_height im
  /\ Forall (fun row => length row = im_width im) (im_rows im).

(** [image[y, x]] for indices that are not negative *)
Definition pixel (im : image) (y x : nat) : option Px :=
  row ← im_rows im !! y; row !! x.

(** [np.pad(image, ((top, bottom), (left, right)[, (0, 0)]),
    mode="constant")] *)
Definition np_pad (im : image) (top bottom left right : nat) : image :=
  let w := (left + im_width im + right)%nat in
  mkImage (top + im_height im + bottom) w
          (replicate top (replicate w zero)
           ++ map (fun row => replicate left zero ++ row
                              ++ replicate right zero)
                  (im_rows im)
           ++ replicate bottom (replicate w zero)).

(** [image[y1:y2, x1:x2]] *)
Definition slice2 (im : image) (y1 y2 x1 x2 : Z) : image :=
  let rows := map (fun row => slice row x1 x2) (slice (im_rows im) y1 y2) in
  mkImage (slice_bound (im_height im) y2 - slice_bound (im_height im) y1)
          (slice_bound (im_width im) x2 - slice_bound (im_width im) x1)
          rows.

(** [BoundingBox.extract_from_image] *)
Definition extract_from_image `{Labels} (self : BoundingBox) (im : image)
  : image :=
  let pad_top := 0 in
  let pad_right := 0 in
  let pad_bottom := 0 in
  let pad_left := 0 in
  let height := Z.of_nat (im_height im) in
  let width := Z.of_nat (im_width im) in
  let x1 := x1_int self in
  let x2 := x2_int self in
  let y1 := y1_int self in
  let y2 := y2_int self in
  let '(pad_left, x2, x1) :=
    if x1 <? 0 then (Z.abs x1, x2 + Z.abs x1, 0) else (pad_left, x2, x1) in
  let '(pad_top, y2, y1) :=
    if y1 <? 0 then (Z.abs y1, y2 + Z.abs y1, 0) else (pad_top, y2, y1) in
  let pad_right := if x2 >=? width then x2 - (width - 1) else pad_right in
  let pad_bottom := if y2 >=? height then y2 - (height - 1) else pad_bottom in
  let im :=
    if existsb (fun val => val >? 0) [pad_top; pad_right; pad_bottom; pad_left]
    then np_pad im (Z.to_nat pad_top) (Z.to_nat pad_bottom)
                (Z.to_nat pad_left) (Z.to_nat pad_right)
    else im in
  slice2 im y1 y2 x1 x2.

End Images.

Arguments mkImage {Px} _ _ _.
Arguments im_height {Px} _.
Arguments im_width {Px} _.
Arguments im_rows {Px} _.

(** [np.argmax] of a flat array: the first position of the largest value;
    [None] for an empty array, where numpy raises. *)
Fixpoint argmax_from (best_i : nat) (best : Z) (i : nat) (l : list Z) : nat :=
  match l with
  | [] => best_i
  | v :: rest =>
      if v >? best then argmax_from i v (S i) rest
      else argmax_from best_i best (S i) rest
  end.

Definition argmax (l : list Z) : option nat :=
  match l with
  | [] => None
  | v :: rest => Some (argmax_from 0 v 1 rest)
  end.

(** [np.unravel_index(k, (height, width))] *)
Definition unravel_index (k : nat) (height width : nat) : nat * nat :=
  ((k / width)%nat, (k mod width)%nat).

(** An array of shape [(height, width, nb_keypoints)] of numbers, one
    [(height, width)] array per keypoint ([image[..., i]]). *)
Record keypoint_image : Type := mkKeypointImage {
  ki_height : nat;
  ki_width : nat;
  ki_channels : list (list (list Z))
}.

(** [np.zeros((height, width), ...)] for one channel *)
Definition zeros (height width : nat) : list (list Z) :=
  replicate height (replicate width 0).

(** The body of the loop of [to_keypoint_image] on the channel of one
    keypoint. *)
Definition draw_keypoint (height width sizeh : Z) (keypoint : Keypoint)
    (channel : list (list Z)) : list (list Z) :=
  let y := y_int keypoint in
  let x := x_int keypoint in
  let x1 := np_clip (x - sizeh) 0 (width - 1) in
  let x2 := np_clip (x + sizeh + 1) 0 width in
  let y1 := np_clip (y - sizeh) 0 (height - 1) in
  let y2 := np_clip (y + sizeh + 1) 0 height in
  let channel :=
    if (x1 <? x2) && (y1 <? y2) then
      slice_update (slice_update (fun _ => 128) x1 x2) y1 y2 channel
    else channel in
  if (0 <=? y) && (y <? height) && (0 <=? x) && (x <? width) then
    alter (fun row => <[Z.to_nat x := 255]> row) (Z.to_nat y) channel
  else channel.

(** The loop [for i, keypoint in enumerate(self.keypoints)] over the
    channels of the image. *)
Fixpoint draw_keypoints (height width sizeh : Z) (i : nat)
    (kps : list Keypoint) (channels : list (list (list Z)))
  : list (list (list Z)) :=
  match kps with
  | [] => channels
  | keypoint :: rest =>
      draw_keypoints height width sizeh (S i) rest
        (alter (draw_keypoint height width sizeh keypoint) i channels)
  end.

(** [KeypointsOnImage.to_keypoint_image]; [None] when an assertion or
    [np.zeros] (on a negative size) raises. *)
Definition to_keypoint_image (self : KeypointsOnImage) (size : Z)
  : option keypoint_image :=
  if negb (0 <? length (keypoints self))%nat then None
  else
    let height := sh_height (kps_shape self) in
    let width := sh_width (kps_shape self) in
    if (height <? 0) || (width <? 0) then None
    else if negb (negb (size mod 2 =? 0)) then None
    else
      let sizeh := Z.max 0 ((size - 1) / 2) in
      let image := replicate (length (keypoints self))
                             (zeros (Z.to_nat height) (Z.to_nat width)) in
      Some (mkKeypointImage (Z.to_nat height) (Z.to_nat width)
              (draw_keypoints height width sizeh 0 (keypoints self) image)).

(** The argument [if_not_found_coords]: [None], a tuple or list, a dict
    with whatever it has under ["x"] and ["y"], or something else. *)
Inductive if_not_found : Type :=
| NotFoundNone
| NotFoundSeq (coords : list Z)
| NotFoundDict (x y : option Z)
| NotFoundOther.

(** The loop of [from_keypoint_image] over the channels. *)
Fixpoint find_keypoints (height width : nat) (threshold : Z)
    (drop_if_not_found : bool) (if_not_found_x if_not_found_y : Z)
    (channels : list (list (list Z))) : option (list Keypoint) :=
  match channels with
  | [] => Some []
  | channel :: rest =>
      maxidx_flat ← argmax (concat channel);
      let maxidx_ndim := unravel_index maxidx_flat height width in
      row ← channel !! fst maxidx_ndim;
      value ← row !! snd maxidx_ndim;
      let found := value >=? threshold in
      keypoints ← find_keypoints height width threshold drop_if_not_found
                     if_not_found_x if_not_found_y rest;
      Some (if found then
              mkKeypoint (Z.of_nat (snd maxidx_ndim))
                         (Z.of_nat (fst maxidx_ndim)) :: keypoints
            else if drop_if_not_found then keypoints
            else mkKeypoint if_not_found_x if_not_found_y :: keypoints)
  end.

(** [KeypointsOnImage.from_keypoint_image]; [None] when it raises. *)
Definition from_keypoint_image (image : keypoint_image)
    (if_not_found_coords : if_not_found) (threshold : Z)
    (nb_channels : option Z) : option KeypointsOnImage :=
  let height := ki_height image in
  let width := ki_width image in
  '(drop_if_not_found, if_not_found_x, if_not_found_y) ←
    match if_not_found_coords with
    | NotFoundNone => Some (true, -1, -1)
    | NotFoundSeq coords =>
        match coords with
        | [x; y] => Some (false, x, y)
        | _ => None
        end
    | NotFoundDict (Some x) (Some y) => Some (false, x, y)
    | NotFoundDict _ _ => None
    | NotFoundOther => None
    end;
  keypoints ← find_keypoints height width threshold drop_if_not_found
                if_not_found_x if_not_found_y (ki_channels image);
  let out_shape :=
    mkShape (Z.of_nat height) (Z.of_nat width)
            (match nb_channels with Some c => [c] | None => [] end) in
  Some (mkKeypointsOnImage keypoints out_shape).

(** The values of [if_not_found_coords] that the function accepts. *)
Definition accepted (if_not_found_coords : if_not_found) : Prop :=
  match if_not_found_coords with
  | NotFoundNone => True
  | NotFoundSeq [_; _] => True
  | NotFoundDict (Some _) (Some _) => True
  | _ => False
  end.

(** A keypoint on a pixel of an image of the given shape. *)
Definition on_image (image : shape) (kp : Keypoint) : Prop :=
  0 <= kp_x kp < sh_width image /\ 0 <= kp_y kp < sh_height image.

End Arrays.

(** Instances for the geometry. *)
Module ToyGeometry.
Import Geometry Arrays.

#[export] Instance names : Labels := {| Label := nat |}.

Definition tag : option Label := Some 7%nat.

Definition box (a b c d : Z) : BoundingBox := mkBoundingBox a b c d tag.

(** A 3x4 image of numbers. *)
Definition im34 : image :=
  mkImage 3 4 [[1; 2; 3; 4]; [5; 6; 7; 8]; [9; 10; 11; 12]].

Definition two_keypoints : KeypointsOnImage :=
  mkKeypointsOnImage [mkKeypoint 1 2; mkKeypoint 3 0] (mkShape 3 4 [3]).

Definition shape34 : shape := mkShape 3 4 [].

(** Three boxes: inside the image, across its border, and beside it. *)
Definition three_boxes : BoundingBoxesOnImage :=
  mkBoundingBoxesOnImage [box 1 1 3 2; box (-2) (-1) 2 2; box 5 0 7 2]
                         shape34.

End ToyGeometry.

(** ** What a run shows of the batches *)

Module Views.
Import RandomStates Batches BatchLoader BackgroundAugmenter.

Section Views.

Context `{A : Augmenter} {U : UserCode}.

(** The batches a generator yields, as far as it gets. *)
Definition batches_of (gen : list gen_step) : list Batch :=
  omap (fun g => match g with Yield (IsBatch b) => Some b | _ => None end) gen.

(** The batches a worker of the loader has put on the queue. *)
Definition put_batches (acts : list action) : list Batch :=
  omap (fun a => match a with
                 | Put batch_pickled => Some (pickle_loads batch_pickled)
                 | _ => None
                 end) acts.


(** The batches among the results of calls of [get_batch]. *)
Definition returned_batches (rs : list got) : list Batch :=
  omap (fun r => match r with ReturnsBatch b => Some b | _ => None end) rs.

End Views.

End Views.

(** * Properties *)

(** ** Random states *)

Section RandomStateFacts.
Import RandomStates.

Context {G : Generator}.

Lemma keeps_refl st : keeps st st.
Proof. intros r v Hr. exact Hr. Qed.

Lemma keeps_trans st1 st2 st3 : keeps st1 st2 -> keeps st2 st3 -> keeps st1 st3.
Proof. intros H12 H23 r v Hr. apply H23, H12, Hr. Qed.

Lemma keeps_keeps_but r0 st st' : keeps st st' -> keeps_but r0 st st'.
Proof. intros Hk r v _ Hr. apply Hk, Hr. Qed.

Lemma keeps_but_trans r0 st1 st2 st3 :
  keeps_but r0 st1 st2 -> keeps_but r0 st2 st3 -> keeps_but r0 st1 st3.
Proof. intros H12 H23 r v Hne Hr. apply H23, H12; assumption. Qed.

Lemma is_new_neq st r r' v :
  is_new st r -> get_state st r' = Some v -> r <> r'.
Proof.
  intros (l & -> & Hl) Hr' <-. simpl in Hr'. congruence.
Qed.

Lemma is_new_keeps st st' r r' v :
  is_new st' r -> keeps st st' -> get_state st r' = Some v -> r <> r'.
Proof.
  intros Hn Hk Hr'. eapply is_new_neq; [exact Hn | apply Hk, Hr'].
Qed.

Lemma is_new_mono st st' r : keeps st st' -> is_new st' r -> is_new st r.
Proof.
  intros Hk (l & -> & Hl). exists l. split; [reflexivity |].
  destruct (heap st !! l) as [v|] eqn:E; [| reflexivity].
  specialize (Hk (Obj l) v E). simpl in Hk. congruence.
Qed.

Lemma get_set_state_eq st r v : get_state (set_state st r v) r = Some v.
Proof. destruct r; simpl; [reflexivity | reflexivity | apply lookup_insert_eq]. Qed.

Lemma get_set_state_ne st r r' v :
  r' <> r -> get_state (set_state st r v) r' = get_state st r'.
Proof.
  intros Hne. destruct r, r'; simpl; try reflexivity; try congruence.
  apply lookup_insert_ne. congruence.
Qed.

Lemma set_state_keeps_but st r v : keeps_but r st (set_state st r v).
Proof. intros r' v' Hne Hr'. rewrite get_set_state_ne; assumption. Qed.

Lemma alloc_spec st v :
  exists l, alloc v st = (Obj l, set_heap (<[l := v]> (heap st)) st)
            /\ heap st !! l = None.
Proof.
  exists (fresh (dom (heap st))). split; [reflexivity |].
  apply not_elem_of_dom, is_fresh.
Qed.

Lemma alloc_new st v r st' :
  alloc v st = (r, st') ->
  is_new st r /\ get_state st' r = Some v /\ keeps st st'
  /\ np_global st' = np_global st /\ current st' = current st
  /\ entropy_used st' = entropy_used st /\ py_rand st' = py_rand st.
Proof.
  destruct (alloc_spec st v) as (l & -> & Hl). intros [= <- <-].
  split; [exists l; auto |]. split; [simpl; apply lookup_insert_eq |].
  split; [| repeat split].
  intros r v' Hr. destruct r; simpl in *; try assumption.
  rewrite lookup_insert_ne; [assumption | congruence].
Qed.

Lemma seed_in_range_spec s : seed_in_range s = true <-> 0 <= s <= 2 ^ 32 - 1.
Proof. unfold seed_in_range. rewrite andb_true_iff. lia. Qed.

Lemma seed_in_range_draw v : seed_in_range (fst (rk_randint v)) = true.
Proof.
  apply seed_in_range_spec. pose proof (rk_randint_range v) as Hr.
  change (10 ^ 6) with 1000000 in Hr. change (2 ^ 32 - 1) with 4294967295. lia.
Qed.

Lemma new_random_state_seeded st s b :
  seed_in_range s = true ->
  new_random_state st (Some s) b = Some (alloc (RandomState_seed s) st).
Proof.
  intros Hs. unfold new_random_state, RandomState. cbn [mbind option_bind].
  rewrite Hs. reflexivity.
Qed.

Lemma new_random_state_refused st s b :
  seed_in_range s = false -> new_random_state st (Some s) b = None.
Proof.
  intros Hs. unfold new_random_state, RandomState. cbn [mbind option_bind].
  rewrite Hs. reflexivity.
Qed.

Lemma rk_draws_one v :
  rk_draws 1 v = ([fst (rk_randint v)], snd (rk_randint v)).
Proof. simpl. destruct (rk_randint v). reflexivity. Qed.

Lemma randint_one st r v :
  get_state st r = Some v ->
  randint st r 1
  = Some ([fst (rk_randint v)], set_state st r (snd (rk_randint v))).
Proof.
  intros Hr. unfold randint. rewrite Hr. simpl.
  destruct (rk_randint v). reflexivity.
Qed.

(** The list comprehension of [derive_random_states]: one new object per
    seed, in order, and nothing else touched. *)
Lemma new_random_states_spec seeds : forall st,
  Forall (fun s => seed_in_range s = true) seeds ->
  exists rs st',
    new_random_states st seeds = Some (rs, st')
    /\ keeps st st'
    /\ states_of st' rs = map (fun s => Some (RandomState_seed s)) seeds
    /\ Forall (is_new st) rs
    /\ NoDup rs.
Proof.
  induction seeds as [| s seeds IH]; intros st Hok.
  - exists [], st. simpl. repeat split; auto using keeps_refl, NoDup_nil_2.
  - apply Forall_cons in Hok as [Hs Hok].
    cbn [new_random_states]. rewrite new_random_state_seeded by exact Hs.
    destruct (alloc (RandomState_seed s) st) as [r st1] eqn:Ea.
    destruct (alloc_new _ _ _ _ Ea) as (Hnew & Hget & Hk & _).
    destruct (IH st1 Hok) as (rs & st2 & Hrs & Hk2 & Hst & Hfresh & Hnd).
    exists (r :: rs), st2. cbn [mbind option_bind]. rewrite Hrs.
    split; [reflexivity |]. split; [eauto using keeps_trans |].
    split; [| split].
    + unfold states_of in *. simpl. rewrite Hst. f_equal. apply Hk2, Hget.
    + constructor; [assumption |].
      eapply Forall_impl; [exact Hfresh |]. intros r'. apply is_new_mono, Hk.
    + constructor; [| assumption].
      intros Hin. rewrite Forall_forall in Hfresh.
      specialize (Hfresh r Hin). eapply is_new_neq in Hfresh; [| exact Hget].
      congruence.
Qed.

Lemma states_of_length st rs (vs : list Z) (f : Z -> option rk_state) :
  states_of st rs = map f vs -> length rs = length vs.
Proof.
  intros Heq. apply (f_equal length) in Heq.
  unfold states_of in Heq. rewrite !length_map in Heq. exact Heq.
Qed.

Lemma xrange_length n : length (xrange n) = Z.to_nat n.
Proof. unfold xrange. rewrite length_map, length_seq. reflexivity. Qed.

Lemma is_new_set_state st r w r' :
  is_new (set_state st r w) r' -> is_new st r'.
Proof.
  intros (l & -> & Hl). exists l. split; [reflexivity |].
  destruct r; simpl in Hl; try assumption.
  apply lookup_insert_None in Hl. tauto.
Qed.

Lemma states_of_keeps_but c st st' rs (ws : list rk_state) :
  keeps_but c st st' -> c ∉ rs ->
  states_of st rs = map Some ws -> states_of st' rs = map Some ws.
Proof.
  intros Hk. revert ws. induction rs as [| r rs IH]; intros ws Hc Hst.
  - exact Hst.
  - destruct ws as [| w ws]; [discriminate |].
    apply not_elem_of_cons in Hc as [Hne Hc].
    unfold states_of in *. simpl in *. injection Hst as Hr Hrest.
    rewrite (IH ws Hc Hrest). f_equal. apply Hk; [congruence | exact Hr].
Qed.

Lemma xrange_spec n i : In i (xrange n) <-> 0 <= i < n.
Proof.
  unfold xrange. rewrite in_map_iff. split.
  - intros (k & <- & Hk). apply in_seq in Hk. lia.
  - intros Hi. exists (Z.to_nat i). split; [lia |]. apply in_seq. lia.
Qed.

(** [derive_random_states]: one draw from the parent, then one new object
    per offset, as long as the last seed is one numpy accepts. *)
Lemma derive_random_states_spec st r v n :
  get_state st r = Some v ->
  fst (rk_randint v) + n - 1 <= 2 ^ 32 - 1 ->
  exists rs st',
    derive_random_states st r n = Some (rs, st')
    /\ length rs = Z.to_nat n
    /\ get_state st' r = Some (snd (rk_randint v))
    /\ states_of st' rs
       = map Some (map (fun i => RandomState_seed (fst (rk_randint v) + i))
                       (xrange n))
    /\ Forall (is_new st) rs
    /\ NoDup rs
    /\ keeps_but r st st'.
Proof.
  intros Hr Hlast. unfold derive_random_states.
  rewrite (randint_one _ _ _ Hr). cbn [mbind option_bind lookup list_lookup].
  pose proof (rk_randint_range v) as Hdraw.
  set (s := fst (rk_randint v)) in *. set (st1 := set_state st r _).
  destruct (new_random_states_spec (map (fun i => s + i) (xrange n)) st1)
    as (rs & st2 & Hrs & Hk & Hst & Hnew & Hnd).
  { apply Forall_forall. intros x Hx.
    apply list_elem_of_In, in_map_iff in Hx as (i & <- & Hi).
    apply xrange_spec in Hi. apply seed_in_range_spec. lia. }
  exists rs, st2. rewrite map_map in Hst.
  split; [exact Hrs |]. split.
  { apply states_of_length in Hst. rewrite Hst. apply xrange_length. }
  split; [apply Hk, get_set_state_eq |].
  split; [rewrite map_map; exact Hst |].
  split; [eapply Forall_impl; [exact Hnew | intros r'; apply is_new_set_state] |].
  split; [exact Hnd |].
  eapply keeps_but_trans; [apply set_state_keeps_but |].
  apply keeps_keeps_but, Hk.
Qed.

(** [copy_random_state] whenever it copies: a new object with the same state
    vector, everything else as it was. *)
Lemma copy_random_state_clone st r v force_copy :
  get_state st r = Some v ->
  force_copy = true \/ r <> NpRandomModule ->
  exists c st',
    copy_random_state st r force_copy = Some (c, st')
    /\ is_new st c /\ c <> r
    /\ get_state st' c = Some v
    /\ keeps st st'.
Proof.
  intros Hr Hcopy. unfold copy_random_state.
  assert (bool_decide (r = NpRandomModule) && negb force_copy = false) as ->.
  { destruct Hcopy as [-> | Hne]; [apply andb_false_r |].
    rewrite bool_decide_eq_false_2; [reflexivity | exact Hne]. }
  unfold dummy_random_state, RandomState.
  change (seed_in_range 1) with true. cbn [mbind option_bind].
  destruct (alloc (RandomState_seed 1) st) as [c st1] eqn:Ea.
  destruct (alloc_new _ _ _ _ Ea) as (Hnew & Hget & Hk & _).
  rewrite (Hk _ _ Hr). cbn [mbind option_bind].
  exists c, (set_state st1 c v).
  split; [reflexivity |]. split; [exact Hnew |].
  split; [eapply is_new_neq; eassumption |].
  split; [apply get_set_state_eq |].
  intros r' v' Hr'. apply set_state_keeps_but; [| apply Hk, Hr'].
  intros ->. eapply is_new_neq in Hnew; [| exact Hr']. congruence.
Qed.

(** C1.  [derive_random_states(state, n)] on a state with state vector [v]
    and [n >= 1] draws exactly one integer [s] from the state (which is
    left one draw further) and returns [n] new, pairwise distinct random
    states seeded [s, s+1, ..., s+n-1]; and on two clones of the same state
    made with [copy_random_state(..., force_copy=True)] it returns two
    lists of [n] states with the same state vectors, the original
    untouched.  The seeds have to be seeds numpy accepts: [s] is below
    [10**6], so that the last one, [s+n-1], is at most [2**32 - 1] for every
    [n] up to [2**32 - 10**6]. *)
Theorem C1_derive_random_states_deterministic
    (st : store) (r : pyref) (v : rk_state) (n : Z) :
  1 <= n ->
  get_state st r = Some v ->
  fst (rk_randint v) + n - 1 <= 2 ^ 32 - 1 ->
  let s := fst (rk_randint v) in
  let children := map (fun i => RandomState_seed (s + i)) (xrange n) in
  (exists rs st',
      derive_random_states st r n = Some (rs, st')
      /\ Z.of_nat (length rs) = n
      /\ get_state st' r = Some (snd (rk_randint v))
      /\ states_of st' rs = map Some children
      /\ Forall (is_new st) rs /\ NoDup rs
      /\ keeps_but r st st')
  /\ (exists c1 st1 c2 st2 rs1 st3 rs2 st4,
      copy_random_state st r true = Some (c1, st1)
      /\ copy_random_state st1 r true = Some (c2, st2)
      /\ c1 <> c2 /\ c1 <> r /\ c2 <> r
      /\ derive_random_states st2 c1 n = Some (rs1, st3)
      /\ derive_random_states st3 c2 n = Some (rs2, st4)
      /\ Z.of_nat (length rs1) = n /\ Z.of_nat (length rs2) = n
      /\ states_of st4 rs1 = map Some children
      /\ states_of st4 rs2 = map Some children
      /\ get_state st4 r = Some v).
Proof.
  intros Hn Hr Hlast s children. split.
  - destruct (derive_random_states_spec st r v n Hr Hlast)
      as (rs & st' & Hd & Hlen & Hpar & Hst & Hnew & Hnd & Hk).
    exists rs, st'. repeat split; try assumption. lia.
  - destruct (copy_random_state_clone st r v true Hr (or_introl eq_refl))
      as (c1 & st1 & Hc1 & Hn1 & Hne1 & Hg1 & Hk1).
    destruct (copy_random_state_clone st1 r v true (Hk1 _ _ Hr)
                (or_introl eq_refl))
      as (c2 & st2 & Hc2 & Hn2 & Hne2 & Hg2 & Hk2).
    assert (c2 <> c1) as Hne12 by (eapply is_new_neq; eassumption).
    destruct (derive_random_states_spec st2 c1 v n (Hk2 _ _ Hg1) Hlast)
      as (rs1 & st3 & Hd1 & Hl1 & _ & Hs1 & Hnew1 & _ & Hk3).
    assert (get_state st3 c2 = Some v) as Hg2' by (apply Hk3; assumption).
    destruct (derive_random_states_spec st3 c2 v n Hg2' Hlast)
      as (rs2 & st4 & Hd2 & Hl2 & _ & Hs2 & _ & _ & Hk4).
    exists c1, st1, c2, st2, rs1, st3, rs2, st4.
    repeat split; try assumption; try lia; try congruence.
    + eapply states_of_keeps_but; [exact Hk4 | | exact Hs1].
      intros Hin. rewrite Forall_forall in Hnew1.
      specialize (Hnew1 _ Hin). eapply is_new_neq in Hnew1; [| exact Hg2].
      congruence.
    + apply Hk4; [congruence |]. apply Hk3; [congruence |].
      apply Hk2, Hk1, Hr.
Qed.

(** C4, as the code has it.  Without [force_copy], [copy_random_state]
    returns the very reference it was given only for numpy's own module-level
    generator [np.random]; for every random state object, the library's root
    [CURRENT_RANDOM_STATE] included, it returns a new object with the same
    state vector, independent of the original.  With [force_copy=True] it
    returns such a clone for every argument, [np.random] included. *)
Theorem C4_copy_random_state_amended (st : store) :
  copy_random_state st NpRandomModule false = Some (NpRandomModule, st)
  /\ (forall r v force_copy,
        get_state st r = Some v ->
        force_copy = true \/ r <> NpRandomModule ->
        exists c st',
          copy_random_state st r force_copy = Some (c, st')
          /\ is_new st c /\ c <> r
          /\ get_state st' c = Some v
          /\ get_state st' r = Some v
          /\ keeps st st'
          /\ (forall w, get_state (set_state st' c w) r = Some v)
          /\ (forall w, get_state (set_state st' r w) c = Some v))
  /\ (exists c st',
        copy_random_state st current_random_state false = Some (c, st')
        /\ c <> current_random_state
        /\ get_state st' c = Some (current st)).
Proof.
  split; [reflexivity |]. split.
  - intros r v force_copy Hr Hcopy.
    destruct (copy_random_state_clone st r v force_copy Hr Hcopy)
      as (c & st' & Hc & Hnew & Hne & Hg & Hk).
    exists c, st'. repeat split; try assumption.
    + apply Hk, Hr.
    + intros w. rewrite get_set_state_ne; [apply Hk, Hr | congruence].
    + intros w. rewrite get_set_state_ne; assumption.
  - destruct (copy_random_state_clone st current_random_state (current st)
                false eq_refl) as (c & st' & Hc & _ & Hne & Hg & _).
    { right. discriminate. }
    exists c, st'. repeat split; assumption.
Qed.

(** C9, as the code has it.  With an integer seed [s] that numpy accepts
    (0 to [2**32 - 1]), [new_random_state(s, fully_random=b)] is
    [np.random.RandomState(s)] for either [b]: the new state's vector is the
    one seeded with [s], so the draw sequences agree, and neither the root
    stream nor the entropy source is touched.  With any other integer the
    call raises, for either [b] alike.  Only with the seed omitted does the
    flag matter: then [False] draws the seed from the root stream and [True]
    takes the system's entropy. *)
Theorem C9_new_random_state_seed_amended
    (st : store) (s : Z) (b : bool) :
  new_random_state st (Some s) b = RandomState st (Some s)
  /\ new_random_state st (Some s) true = new_random_state st (Some s) false
  /\ (0 <= s <= 2 ^ 32 - 1 ->
      exists r st',
        new_random_state st (Some s) b = Some (r, st')
        /\ is_new st r
        /\ get_state st' r = Some (RandomState_seed s)
        /\ (forall k, draw_sequence k <$> get_state st' r
                      = Some (draw_sequence k (RandomState_seed s)))
        /\ current st' = current st
        /\ np_global st' = np_global st
        /\ entropy_used st' = entropy_used st)
  /\ (s < 0 \/ 2 ^ 32 - 1 < s -> new_random_state st (Some s) b = None)
  /\ new_random_state st None false
     = RandomState
         (set_state st CURRENT_RANDOM_STATE (snd (rk_randint (current st))))
         (Some (fst (rk_randint (current st))))
  /\ (exists r st',
        new_random_state st None false = Some (r, st')
        /\ get_state st' r
           = Some (RandomState_seed (fst (rk_randint (current st))))
        /\ current st' = snd (rk_randint (current st)))
  /\ new_random_state st None true = RandomState st None.
Proof.
  split; [reflexivity |]. split; [reflexivity |].
  split; [| split; [| split; [| split]]].
  - intros Hs. apply seed_in_range_spec in Hs.
    rewrite new_random_state_seeded by exact Hs.
    destruct (alloc (RandomState_seed s) st) as [r st'] eqn:Ea.
    destruct (alloc_new _ _ _ _ Ea) as (Hnew & Hg & _ & Hnp & Hcur & Hent & _).
    exists r, st'. repeat split; try assumption.
    intros k. rewrite Hg. reflexivity.
  - intros Hs. apply new_random_state_refused.
    destruct (seed_in_range s) eqn:E; [| reflexivity].
    apply seed_in_range_spec in E. lia.
  - unfold new_random_state. cbn [negb].
    rewrite (randint_one st CURRENT_RANDOM_STATE (current st) eq_refl).
    reflexivity.
  - unfold new_random_state. cbn [negb].
    rewrite (randint_one st CURRENT_RANDOM_STATE (current st) eq_refl).
    cbn [mbind option_bind lookup list_lookup RandomState].
    rewrite seed_in_range_draw.
    destruct (alloc _ _) as [r st'] eqn:Ea.
    destruct (alloc_new _ _ _ _ Ea) as (_ & Hg & _ & _ & Hcur & _).
    exists r, st'. split; [reflexivity |]. split; [exact Hg |].
    rewrite Hcur. reflexivity.
  - reflexivity.
Qed.

End RandomStateFacts.

(** ** The loader *)

Section LoaderFacts.
Import RandomStates Batches BatchLoader.

Context `{BD : BatchData} {G : Generator} {P : Platform} {U : UserCode}.

Lemma rk_draws_length size : forall v, length (fst (rk_draws size v)) = size.
Proof.
  induction size as [| k IH]; intros v; [reflexivity |].
  simpl. destruct (rk_randint v) as [x v1]. specialize (IH v1).
  destruct (rk_draws k v1). simpl in *. congruence.
Qed.

Lemma randint_current st size :
  randint st current_random_state size
  = Some (fst (rk_draws size (current st)),
          set_state st CURRENT_RANDOM_STATE (snd (rk_draws size (current st)))).
Proof.
  unfold randint. simpl. destruct (rk_draws size (current st)). reflexivity.
Qed.

Lemma BatchLoader_init_ok st load qs nw thr :
  0 < qs -> 1 <= nw ->
  BatchLoader_init st load qs nw thr
  = let seeds := fst (rk_draws (Z.to_nat nw) (current st)) in
    Some (mkLoader (mkQueue qs [] false) false (map (fun _ => false) seeds)
            (map (fun s => mkWorker (if thr then None else Some s) load) seeds)
            thr,
          set_state st CURRENT_RANDOM_STATE
                    (snd (rk_draws (Z.to_nat nw) (current st)))).
Proof.
  intros Hq Hw. unfold BatchLoader_init.
  rewrite (proj2 (Z.ltb_lt 0 qs) Hq), (proj2 (Z.leb_le 1 nw) Hw).
  cbn [negb]. rewrite randint_current. reflexivity.
Qed.

Lemma rk_draws_range size : forall v,
  Forall (fun s => 0 <= s < 10 ^ 6) (fst (rk_draws size v)).
Proof.
  induction size as [| k IH]; intros v; [constructor |].
  simpl. pose proof (rk_randint_range v) as Hr.
  destruct (rk_randint v) as [x v1]. specialize (IH v1).
  destruct (rk_draws k v1). simpl in *. constructor; assumption.
Qed.

(** The reseeding of a worker with a seed numpy accepts. *)
Lemma reseeded_in_range st s :
  0 <= s <= 2 ^ 32 - 1 ->
  reseeded st (Some s)
  = inr (set_state (set_state (random_seed st s) NpRandomModule
                              (RandomState_seed s))
                   CURRENT_RANDOM_STATE (RandomState_seed s)).
Proof.
  intros Hs. apply seed_in_range_spec in Hs.
  unfold reseeded, np_random_seed, seed, RandomState_reseed.
  rewrite Hs. reflexivity.
Qed.

Lemma reseeded_refused st s :
  s < 0 \/ 2 ^ 32 - 1 < s -> reseeded st (Some s) = inl (random_seed st s).
Proof.
  intros Hs. unfold reseeded, np_random_seed, RandomState_reseed.
  destruct (seed_in_range s) eqn:E; [| reflexivity].
  apply seed_in_range_spec in E. lia.
Qed.

(** C10.  [BatchLoader.__init__] draws its [nb_workers] seeds from the root
    stream in one [randint] call whatever [threaded] is: the process state
    after the construction is the same in both modes, with the root stream
    [nb_workers] draws further.  A thread-mode worker is started with
    [seedval] [None] and [_load_batches] then reseeds nothing; a
    process-mode worker gets its entry of the seeds, an integer below
    [10**6], with which [_load_batches] reseeds Python's generator, numpy's
    and the root stream. *)
Theorem C10_BatchLoader_init_draws_in_both_modes
    (st : store) (load_batch_func : list gen_step) (queue_size nb_workers : Z) :
  snd <$> BatchLoader_init st load_batch_func queue_size nb_workers true
  = snd <$> BatchLoader_init st load_batch_func queue_size nb_workers false
  /\ (0 < queue_size -> 1 <= nb_workers ->
      let seeds := fst (rk_draws (Z.to_nat nb_workers) (current st)) in
      let st' := set_state st CURRENT_RANDOM_STATE
                   (snd (rk_draws (Z.to_nat nb_workers) (current st))) in
      exists Lt Lp,
        BatchLoader_init st load_batch_func queue_size nb_workers true
        = Some (Lt, st')
        /\ BatchLoader_init st load_batch_func queue_size nb_workers false
           = Some (Lp, st')
        /\ Z.of_nat (length seeds) = nb_workers
        /\ map w_seedval (workers Lt) = map (fun _ => None) seeds
        /\ map w_seedval (workers Lp) = map Some seeds
        /\ Forall (fun s => 0 <= s < 10 ^ 6) seeds)
  /\ (forall stw gen env, fst (fst (_load_batches stw gen env None)) = stw)
  /\ (forall stw gen env s,
        0 <= s <= 2 ^ 32 - 1 ->
        Some (fst (fst (_load_batches stw gen env (Some s))))
        = (st1 ← np_random_seed (random_seed stw s) s; seed st1 s)
        /\ current (fst (fst (_load_batches stw gen env (Some s))))
           = RandomState_seed s
        /\ np_global (fst (fst (_load_batches stw gen env (Some s))))
           = RandomState_seed s
        /\ py_rand (fst (fst (_load_batches stw gen env (Some s))))
           = PySeeded s).
Proof.
  split; [| split; [| split]].
  - unfold BatchLoader_init.
    destruct (negb (0 <? queue_size)); [reflexivity |].
    destruct (negb (1 <=? nb_workers)); [reflexivity |].
    rewrite randint_current. reflexivity.
  - intros Hq Hw seeds st'.
    eexists _, _. rewrite !BatchLoader_init_ok by assumption.
    split; [reflexivity |]. split; [reflexivity |].
    split; [| split; [| split]].
    + unfold seeds. rewrite rk_draws_length. lia.
    + simpl. rewrite map_map. reflexivity.
    + simpl. rewrite map_map. reflexivity.
    + apply rk_draws_range.
  - intros stw gen env. unfold _load_batches. cbn [reseeded].
    destruct (for_batches gen env) as [acts [[e|] | |]]; reflexivity.
  - intros stw gen env s Hs. unfold _load_batches.
    rewrite (reseeded_in_range stw s Hs).
    apply seed_in_range_spec in Hs.
    unfold np_random_seed, seed, RandomState_reseed. rewrite Hs.
    cbn [mbind option_bind].
    destruct (for_batches gen env) as [acts [[e|] | |]];
      repeat split; reflexivity.
Qed.

Lemma _load_batches_eq st gen env seedval :
  _load_batches st gen env seedval
  = match reseeded st seedval with
    | inl st1 => (st1, [], Crashed)
    | inr st1 =>
        match snd (for_batches gen env) with
        | Finished None =>
            (st1, fst (for_batches gen env) ++ [SetFinished], Exited)
        | Finished (Some exc) =>
            (st1, fst (for_batches gen env) ++ [PrintExc exc; SetFinished],
             Exited)
        | OutOfTicks => (st1, fst (for_batches gen env), Running)
        | InGenerator => (st1, fst (for_batches gen env), Stuck)
        end
    end.
Proof.
  unfold _load_batches. destruct (reseeded st seedval); [reflexivity |].
  destruct (for_batches gen env) as [acts [[e|] | |]]; reflexivity.
Qed.

(** Inside the loop a worker does nothing but put batches. *)
Lemma for_batches_puts gen : forall env,
  exists puts, fst (for_batches gen env) = map Put puts.
Proof.
  induction gen as [| g gen IH]; intros env; [exists []; reflexivity |].
  destruct g as [[b |] | e |]; try (exists []; reflexivity).
  cbn [for_batches].
  destruct (put_loop env) as [[was_put env1] |]; [| exists []; reflexivity].
  destruct env1 as [| t env2].
  { destruct was_put; [eexists [_] | exists []]; reflexivity. }
  destruct (join_set t).
  { destruct was_put; [eexists [_] | exists []]; reflexivity. }
  destruct (IH env2) as [puts Hp].
  destruct (for_batches gen env2) as [rest e]. simpl in Hp. subst rest.
  destruct was_put; [eexists (_ :: puts) | exists puts]; reflexivity.
Qed.

(** A run that gets through the batches [bs] and asks the generator for
    the next item goes on from there in the same way whatever comes. *)
Lemma for_batches_reaches bs : forall env acts,
  for_batches (yields bs ++ [GenBlock]) env = (acts, InGenerator) ->
  forall tail, exists env',
    for_batches (yields bs ++ tail) env
    = (acts ++ fst (for_batches tail env'), snd (for_batches tail env')).
Proof.
  induction bs as [| b bs IH]; intros env acts Hrun tail.
  - injection Hrun as <-. exists env. simpl.
    destruct (for_batches tail env). reflexivity.
  - simpl in Hrun |- *.
    destruct (put_loop env) as [[was_put env1] |]; [| discriminate].
    destruct env1 as [| t env2]; [discriminate |].
    destruct (join_set t); [discriminate |].
    fold (yields bs) in Hrun |- *.
    destruct (for_batches (yields bs ++ [GenBlock]) env2) as [rest e] eqn:E.
    injection Hrun as <- ->.
    destruct (IH env2 rest E tail) as [env' ->]. exists env'.
    rewrite app_assoc. reflexivity.
Qed.

Lemma Forall_not_SetFinished (puts : list (pickled Batch))
    (logs : list Exception) :
  Forall (fun a => a <> SetFinished) (map Put puts ++ map PrintExc logs).
Proof.
  apply Forall_app. split; apply Forall_forall; intros a Ha;
    apply list_elem_of_In, in_map_iff in Ha as (x & <- & _); discriminate.
Qed.

(** C5.  A producer worker whose generator is exhausted, or raises, when
    asked for its next item, sets its finished flag and returns: the
    exception is printed, nothing is raised again.  (The generator is asked
    once the reseeding before the [try] is through, as it is with the seed
    [None] of a thread and with every seed [__init__] draws.)  In every run
    the flag is set at most once, as the worker's last action, after all its
    puts, and exactly once when the worker has returned; a worker's run is a
    function of its own generator and observations, so replacing a sibling
    changes nothing of it. *)
Theorem C5_load_batches_sets_finished_once (st : store) (seedval : option Z) :
  (forall bs env acts,
      for_batches (yields bs ++ [GenBlock]) env = (acts, InGenerator) ->
      _load_batches st (yields bs) env seedval
      = match reseeded st seedval with
        | inr st1 => (st1, acts ++ [SetFinished], Exited)
        | inl st1 => (st1, [], Crashed)
        end
      /\ (forall e rest,
            _load_batches st (yields bs ++ GenRaise e :: rest) env seedval
            = match reseeded st seedval with
              | inr st1 =>
                  (st1, acts ++ [PrintExc (Raised e); SetFinished], Exited)
              | inl st1 => (st1, [], Crashed)
              end)
      /\ exists puts, acts = map Put puts)
  /\ ((forall s, seedval = Some s -> 0 <= s <= 2 ^ 32 - 1) ->
      exists st1, reseeded st seedval = inr st1)
  /\ (forall gen env st' acts s,
        _load_batches st gen env seedval = (st', acts, s) ->
        exists puts logs,
          (length logs <= 1)%nat
          /\ Forall (fun a => a <> SetFinished)
                    (map Put puts ++ map PrintExc logs)
          /\ match s with
             | Exited =>
                 acts = (map Put puts ++ map PrintExc logs) ++ [SetFinished]
             | _ => acts = map Put puts /\ logs = []
             end)
  /\ (forall (ws : list (worker * list tick)) i j w',
        i <> j ->
        run_workers st (<[i := w']> ws) !! j = run_workers st ws !! j).
Proof.
  split; [| split; [| split]].
  - intros bs env acts Hrun. split; [| split].
    + destruct (for_batches_reaches bs env acts Hrun []) as [env' Heq].
      rewrite app_nil_r in Heq. rewrite _load_batches_eq, Heq.
      destruct (reseeded st seedval); [reflexivity |]. simpl.
      rewrite app_nil_r. reflexivity.
    + intros e rest.
      destruct (for_batches_reaches bs env acts Hrun (GenRaise e :: rest))
        as [env' Heq].
      rewrite _load_batches_eq, Heq.
      destruct (reseeded st seedval); [reflexivity |]. simpl.
      rewrite app_nil_r. reflexivity.
    + destruct (for_batches_puts (yields bs ++ [GenBlock]) env) as [puts Hp].
      rewrite Hrun in Hp. exists puts. exact Hp.
  - intros Hok. destruct seedval as [s |]; [| eexists; reflexivity].
    rewrite (reseeded_in_range st s (Hok s eq_refl)). eexists. reflexivity.
  - intros gen env st' acts s. rewrite _load_batches_eq.
    destruct (reseeded st seedval) as [stc | st1].
    { intros [= <- <- <-]. exists [], []. split; [simpl; lia |].
      split; [constructor |]. split; reflexivity. }
    destruct (for_batches_puts gen env) as [puts Hp]. rewrite Hp.
    destruct (snd (for_batches gen env)) as [[exc |] | |];
      intros [= <- <- <-].
    + exists puts, [exc]. split; [simpl; lia |].
      split; [apply Forall_not_SetFinished |].
      rewrite <- app_assoc. reflexivity.
    + exists puts, []. split; [simpl; lia |].
      split; [apply Forall_not_SetFinished |].
      simpl. rewrite app_nil_r. reflexivity.
    + exists puts, []. split; [simpl; lia |].
      split; [apply Forall_not_SetFinished |].
      split; reflexivity.
    + exists puts, []. split; [simpl; lia |].
      split; [apply Forall_not_SetFinished |].
      split; reflexivity.
  - intros ws i j w' Hne. unfold run_workers.
    etransitivity; [apply (list_lookup_fmap _ (<[i := w']> ws) j) |].
    rewrite list_lookup_insert_ne by exact Hne.
    symmetry. apply (list_lookup_fmap _ ws j).
Qed.

Lemma put_loop_no_join env : forall w env1,
  Forall (fun t => join_set t = false) env ->
  put_loop env = Some (w, env1) ->
  w = true /\ Forall (fun t => join_set t = false) env1.
Proof.
  induction env as [| t env IH]; intros w env1 Hno Hput; [discriminate |].
  apply Forall_cons in Hno as [Ht Hno]. simpl in Hput. rewrite Ht in Hput.
  destruct (queue_full t).
  - apply IH; assumption.
  - injection Hput as <- <-. split; [reflexivity | exact Hno].
Qed.

Lemma for_batches_no_join bs : forall env acts e,
  Forall (fun t => join_set t = false) env ->
  for_batches (yields bs) env = (acts, Finished e) ->
  e = None /\ acts = map (fun b => Put (pickle_dumps b)) bs.
Proof.
  induction bs as [| b bs IH]; intros env acts e Hno Hrun.
  - injection Hrun as <- <-. split; reflexivity.
  - simpl in Hrun. fold (yields bs) in Hrun.
    destruct (put_loop env) as [[w env1] |] eqn:Eput; [| discriminate].
    destruct (put_loop_no_join _ _ _ Hno Eput) as [-> Hno1].
    destruct env1 as [| t env2]; [discriminate |].
    apply Forall_cons in Hno1 as [Ht Hno2]. rewrite Ht in Hrun.
    destruct (for_batches (yields bs) env2) as [rest e'] eqn:E.
    injection Hrun as <- ->.
    destruct (IH _ _ _ Hno2 E) as [-> ->]. split; reflexivity.
Qed.


Lemma drain_nil (its : list (pickled Batch)) : drain its = [].
Proof. induction its as [| x its IH]; [reflexivity | exact IH]. Qed.

(** With the join signal set, a worker is over after at most one more item
    of its generator. *)
Lemma for_batches_stopped (w : worker) :
  snd (for_batches (w_gen w) [tick_stopped; tick_stopped])
  = if stuck_in_generator w then InGenerator
    else match w_gen w with
         | GenRaise e :: _ => Finished (Some (Raised e))
         | Yield NotBatch :: _ => Finished (Some AssertionError)
         | _ => Finished None
         end.
Proof.
  unfold stuck_in_generator. destruct (w_gen w) as [| [[b |] | e |] gen];
    reflexivity.
Qed.

Lemma join_thread_Some flags i w flags1 :
  join_thread flags i w = Some flags1 ->
  length flags1 = length flags
  /\ (forall j, j <> i -> flags1 !! j = flags !! j)
  /\ ((i < length flags)%nat -> flags1 !! i = Some true).
Proof.
  unfold join_thread. destruct (flags !! i) as [[|] |] eqn:Ei.
  - intros [= <-]. auto.
  - destruct (snd (for_batches _ _)); try discriminate. intros [= <-].
    split; [apply length_insert |].
    split; [intros j Hj; apply list_lookup_insert_ne; congruence |].
    intros Hi. apply list_lookup_insert_eq. exact Hi.
  - destruct (snd (for_batches _ _)); try discriminate. intros [= <-].
    split; [apply length_insert |].
    split; [intros j Hj; apply list_lookup_insert_ne; congruence |].
    intros Hi. apply list_lookup_insert_eq. exact Hi.
Qed.

Lemma join_threads_Some ws : forall flags k flags',
  join_threads flags k ws = Some flags' ->
  length flags' = length flags
  /\ (forall j, (j < k)%nat \/ (k + length ws <= j)%nat ->
                flags' !! j = flags !! j)
  /\ (forall j, (k <= j < k + length ws)%nat -> (j < length flags)%nat ->
                flags' !! j = Some true).
Proof.
  induction ws as [| w ws IH]; intros flags k flags' Hj.
  - injection Hj as <-. split; [reflexivity |]. split; [reflexivity |].
    simpl. intros j ? ?. lia.
  - cbn [join_threads] in Hj.
    destruct (join_thread flags k w) as [flags1 |] eqn:E1; [| discriminate].
    cbn [mbind option_bind] in Hj.
    destruct (join_thread_Some _ _ _ _ E1) as (Hl1 & Ho1 & Hi1).
    destruct (IH _ _ _ Hj) as (Hl & Ho & Hi).
    split; [congruence |]. split.
    + intros j Hjr. simpl in Hjr. rewrite Ho by lia. apply Ho1. lia.
    + intros j Hjr Hjl. simpl in Hjr.
      destruct (decide (j = k)) as [-> | Hne].
      * rewrite Ho by lia. apply Hi1. exact Hjl.
      * apply Hi; lia.
Qed.

Lemma join_threads_free ws : forall flags k,
  Forall (fun w => stuck_in_generator w = false) ws ->
  exists flags', join_threads flags k ws = Some flags'.
Proof.
  induction ws as [| w ws IH]; intros flags k Hfree; [eexists; reflexivity |].
  apply Forall_cons in Hfree as [Hw Hfree]. cbn [join_threads].
  assert (exists flags1, join_thread flags k w = Some flags1) as [flags1 ->].
  { unfold join_thread. rewrite for_batches_stopped, Hw.
    destruct (flags !! k) as [[|] |];
      destruct (w_gen w) as [| [[b |] | e |] gen]; eexists; reflexivity. }
  cbn [mbind option_bind]. apply IH, Hfree.
Qed.

Lemma join_threads_stuck ws : forall flags k n w,
  ws !! n = Some w -> stuck_in_generator w = true ->
  flags !! (k + n)%nat = Some false ->
  join_threads flags k ws = None.
Proof.
  induction ws as [| w0 ws IH]; intros flags k n w Hw Hs Hf; [discriminate |].
  cbn [join_threads]. destruct n as [| n].
  - injection Hw as ->. rewrite Nat.add_0_r in Hf.
    unfold join_thread. rewrite Hf, for_batches_stopped, Hs. reflexivity.
  - destruct (join_thread flags k w0) as [flags1 |] eqn:E1; [| reflexivity].
    cbn [mbind option_bind].
    destruct (join_thread_Some _ _ _ _ E1) as (_ & Ho1 & _).
    apply (IH flags1 (S k) n w); [exact Hw | exact Hs |].
    rewrite Ho1 by lia. rewrite <- Hf. f_equal. lia.
Qed.

Lemma join_threads_done ws : forall flags k,
  (forall j, (k <= j < k + length ws)%nat -> flags !! j = Some true) ->
  join_threads flags k ws = Some flags.
Proof.
  induction ws as [| w ws IH]; intros flags k Hall; [reflexivity |].
  cbn [join_threads]. unfold join_thread.
  rewrite (Hall k) by (simpl; lia). cbn [mbind option_bind].
  apply IH. intros j Hj. apply Hall. simpl. lia.
Qed.

Lemma forallb_id_lookup (flags : list bool) :
  (forall j, (j < length flags)%nat -> flags !! j = Some true) ->
  forallb id flags = true.
Proof.
  induction flags as [| f flags IH]; intros Hall; [reflexivity |].
  simpl. specialize (Hall 0%nat ltac:(simpl; lia)) as H0.
  injection H0 as ->. simpl. apply IH. intros j Hj.
  apply (Hall (S j)). simpl. lia.
Qed.

Lemma forallb_id_all_true {X : Type} (l : list X) :
  forallb id (map (fun _ => true) l) = true.
Proof. induction l as [| x l IH]; [reflexivity | exact IH]. Qed.

Lemma map_true_all_true (flags : list bool) :
  forallb id flags = true -> map (fun _ => true) flags = flags.
Proof.
  induction flags as [| f flags IH]; [reflexivity |].
  simpl. intros [Hf Hr]%andb_true_iff. unfold id in Hf. subst f.
  f_equal. apply IH, Hr.
Qed.

Lemma lookup_all_true (flags : list bool) j :
  forallb id flags = true -> (j < length flags)%nat -> flags !! j = Some true.
Proof.
  revert j. induction flags as [| f flags IH]; intros j Hall Hj;
    [simpl in Hj; lia |].
  simpl in Hall. apply andb_true_iff in Hall as [Hf Hr]. unfold id in Hf.
  subst f. destruct j as [| j]; [reflexivity |].
  simpl. apply IH; [exact Hr | simpl in Hj; lia].
Qed.

(** What a returned [terminate] leaves behind. *)
Lemma terminate_Returns self inflight self' :
  length (finished_signals self) = length (workers self) ->
  terminate self inflight = Returns self' ->
  join_signal self' = true
  /\ items (queue self') = []
  /\ closed (queue self') = true
  /\ maxsize (queue self') = maxsize (queue self)
  /\ all_finished self' = true
  /\ length (finished_signals self') = length (finished_signals self)
  /\ workers self' = workers self
  /\ threaded self' = threaded self.
Proof.
  intros Hwf. unfold terminate.
  destruct (closed (queue self) && closed_get_raises); [discriminate |].
  destruct (threaded self) eqn:Ethr.
  - destruct (join_threads _ _ _) as [flags |] eqn:Ej; [| discriminate].
    intros [= <-]. simpl. rewrite drain_nil.
    destruct (join_threads_Some _ _ _ _ Ej) as (Hl & _ & Hset).
    repeat split; try assumption.
    unfold all_finished. simpl. apply forallb_id_lookup.
    intros j Hj. apply Hset; lia.
  - intros [= <-]. simpl. rewrite drain_nil.
    repeat split; try assumption.
    + apply forallb_id_all_true.
    + apply length_map.
Qed.

(** A call of [terminate()] on a loader that a first call has left: the
    loop that empties the queue now asks a closed queue. *)
Lemma terminate_again self inflight self' :
  length (finished_signals self) = length (workers self) ->
  terminate self inflight = Returns self' ->
  terminate self' []
  = if closed_get_raises then Raises self' else Returns self'.
Proof.
  intros Hwf Hret.
  destruct (terminate_Returns _ _ _ Hwf Hret)
    as (Hjs & Hit & Hcl & Hms & Hall & Hlen & Hws & Hthr).
  destruct self' as [[ms its cl] js flags ws thr]. simpl in *.
  subst its cl js. unfold terminate. simpl.
  destruct closed_get_raises; [reflexivity |].
  destruct thr.
  + rewrite join_threads_done; [reflexivity |].
    intros j Hj. apply lookup_all_true; [exact Hall |].
    rewrite Hlen, Hwf, <- Hws. lia.
  + rewrite map_true_all_true by exact Hall. reflexivity.
Qed.

(** C8, as the code has it.  When [BatchLoader.terminate()] returns, the
    join signal is set, the queue holds nothing of what was queued or landed
    during the grace period, every finished flag is set in both modes and
    the queue is closed.  On a loader whose queue is open, the call returns
    in process mode whatever the workers are doing; in thread mode it joins
    the workers: it returns when no worker is blocked inside the batch
    generator, and never returns when an unfinished worker is. *)
Theorem C8_terminate_amended
    (self : BatchLoader) (inflight : list (pickled Batch)) :
  length (finished_signals self) = length (workers self) ->
  (forall self',
      terminate self inflight = Returns self' ->
      join_signal self' = true
      /\ items (queue self') = []
      /\ all_finished self' = true
      /\ closed (queue self') = true)
  /\ (closed (queue self) = false -> threaded self = false ->
      exists self', terminate self inflight = Returns self')
  /\ (closed (queue self) = false -> threaded self = true ->
      Forall (fun w => stuck_in_generator w = false) (workers self) ->
      exists self', terminate self inflight = Returns self')
  /\ (closed (queue self) = false -> threaded self = true ->
      forall i w,
        workers self !! i = Some w ->
        finished_signals self !! i = Some false ->
        stuck_in_generator w = true ->
        terminate self inflight = BlocksForever).
Proof.
  intros Hwf. split; [| split; [| split]].
  - intros self' Hret.
    destruct (terminate_Returns _ _ _ Hwf Hret)
      as (Hjs & Hit & Hcl & Hms & Hall & Hlen & Hws & Hthr).
    repeat split; assumption.
  - intros Hopen Hthr. unfold terminate. rewrite Hopen, Hthr.
    eexists. reflexivity.
  - intros Hopen Hthr Hfree. unfold terminate. rewrite Hopen, Hthr.
    destruct (join_threads_free (workers self) (finished_signals self) 0 Hfree)
      as [flags ->].
    eexists. reflexivity.
  - intros Hopen Hthr i w Hw Hf Hs. unfold terminate. rewrite Hopen, Hthr.
    rewrite (join_threads_stuck (workers self) (finished_signals self) 0 i w);
      auto.
Qed.

End LoaderFacts.

(** ** The augmenter *)

Section AugmenterFacts.
Import RandomStates Batches BackgroundAugmenter.

Context `{A : Augmenter} {G : Generator} {P : Platform}.

Implicit Types (self : BackgroundAugmenter) (ws : worker_state).
Implicit Types (q tr : list message) (bs : list Batch).



Lemma payloads_messages bs : payloads (messages bs) = bs.
Proof.
  induction bs as [| b bs IH]; [reflexivity |].
  change (payloads (messages (b :: bs))) with (b :: payloads (messages bs)).
  rewrite IH. reflexivity.
Qed.






(** Case analysis along a sequence of calls that all returned. *)
Ltac returned :=
  repeat match goal with
    | H : inl _ = inr _ |- _ => discriminate H
    | H : inr _ = inr _ |- _ => injection H as H; try subst
    | H : (_, _) = (_, _) |- _ => injection H as ? ?; try subst
    | H : bind_exn ?m _ = inr _ |- _ =>
        let E := fresh "Ecall" in
        destruct m as [? | [? ?]] eqn:E; cbn [bind_exn] in H
    | H : with_det _ _ = inr _ |- _ => unfold with_det in H
    | H : (if ?c then _ else _) = inr _ |- _ => destruct c eqn:?
    | H : match ?o with Some _ => _ | None => _ end = inr _ |- _ =>
        destruct o eqn:?
    end.

Lemma same_inputs_refl (b : Batch) : same_inputs b b.
Proof. repeat split. Qed.

(** The assignments of [augment_batch] are to the [_aug] fields only. *)
Lemma augment_batch_same_inputs self ws (batch batch' : Batch) ws' :
  augment_batch self ws batch = inr (batch', ws') ->
  same_inputs batch batch'.
Proof.
  unfold augment_batch. intros Hrun.
  destruct (is_not_None (images batch) && self_augment_images self);
    destruct (is_not_None (keypoints batch) && self_augment_keypoints self);
    destruct (is_not_None (images_gt batch) && self_augment_images_gt self);
    cbn [andb] in Hrun; returned; repeat split.
Qed.

(** C7.  A batch that a consumer worker has processed has the fields
    [images], [images_gt], [mask_gt], [keypoints] and [data] it came with:
    the worker assigns [images_aug], [images_gt_aug], [mask_gt_aug] and
    [keypoints_aug] only, and puts the batch with these on the result
    queue. *)
Theorem C7_worker_keeps_input_fields
    self ws (batch batch' : Batch) ws' (rest : list poll) :
  augment_batch self ws batch = inr (batch', ws') ->
  (images batch' = images batch
   /\ images_gt batch' = images_gt batch
   /\ mask_gt batch' = mask_gt batch
   /\ keypoints batch' = keypoints batch
   /\ data batch' = data batch)
  /\ (exists ia ga ma ka,
        batch' = set_keypoints_aug ka
                   (set_mask_gt_aug ma
                      (set_images_gt_aug ga (set_images_aug ia batch))))
  /\ worker_output self (ws, Got (pickle_dumps batch) :: rest)
     = pickle_dumps (Some batch') :: worker_output self (ws', rest).
Proof.
  intros Hrun. split; [exact (augment_batch_same_inputs _ _ _ _ _ Hrun) |].
  split.
  - destruct (augment_batch_same_inputs _ _ _ _ _ Hrun)
      as (Hi & Hg & Hm & Hk & Hd).
    exists (images_aug batch'), (images_gt_aug batch'), (mask_gt_aug batch'),
           (keypoints_aug batch').
    destruct batch, batch'. simpl in *. subst. reflexivity.
  - unfold worker_output. cbn [worker_loop fst snd pickle_loads pickle_dumps].
    rewrite Hrun. destruct (worker_loop self ws' rest) as [[out s] wsf].
    reflexivity.
Qed.

(** C3, as the code has it.  With the flags as [__init__] sets them, a
    batch with only images has the shared pipeline applied to the images
    alone and [images_aug] set to the result; a batch with only keypoints
    has it applied to the keypoints alone and [keypoints_aug] set; for a
    batch with only ground-truth images no pipeline is applied and no
    [_aug] field is set.  In each case the worker puts the resulting batch on
    the result queue. *)
Theorem C3_single_stream_amended self ws (batch : Batch) :
  self_augment_images self = true ->
  self_augment_images_gt self = true ->
  self_augment_keypoints self = true ->
  (is_not_None (images batch) = true ->
   images_gt batch = None -> keypoints batch = None ->
   augment_batch self ws batch
   = let! (ia, a1) := augment_images (w_augseq ws) (images batch) in
     inr (set_images_aug ia batch, mkWS a1 (w_augseq_X ws) (w_augseq_gt ws)))
  /\ (is_not_None (keypoints batch) = true ->
      images batch = None -> images_gt batch = None ->
      augment_batch self ws batch
      = let! (ka, a1) := augment_keypoints (w_augseq ws) (keypoints batch) in
        inr (set_keypoints_aug ka batch,
             mkWS a1 (w_augseq_X ws) (w_augseq_gt ws)))
  /\ (is_not_None (images_gt batch) = true ->
      images batch = None -> keypoints batch = None ->
      augment_batch self ws batch = inr (batch, ws))
  /\ (forall batch' ws' rest,
        augment_batch self ws batch = inr (batch', ws') ->
        worker_output self (ws, Got (pickle_dumps batch) :: rest)
        = pickle_dumps (Some batch') :: worker_output self (ws', rest))
  /\ (forall st a x g queue_size nb self1 st',
        BackgroundAugmenter_init st a x g queue_size nb = Some (self1, st') ->
        self_augment_images self1 = true
        /\ self_augment_images_gt self1 = true
        /\ self_augment_keypoints self1 = true).
Proof.
  intros Hi Hg Hk. split; [| split; [| split; [| split]]].
  - intros Him Hgt Hkp. unfold augment_batch.
    rewrite Him, Hgt, Hkp, Hi. reflexivity.
  - intros Hkp Him Hgt. unfold augment_batch.
    rewrite Him, Hgt, Hkp, Hk. reflexivity.
  - intros Hgt Him Hkp. unfold augment_batch.
    rewrite Him, Hkp. reflexivity.
  - intros batch' ws' rest Hrun. unfold worker_output.
    cbn [worker_loop fst snd pickle_loads pickle_dumps].
    rewrite Hrun. destruct (worker_loop self ws' rest) as [[out s] wsf].
    reflexivity.
  - intros st a x g queue_size nb self1 st'. unfold BackgroundAugmenter_init.
    destruct (negb (0 <? queue_size)); [discriminate |].
    destruct (match nb with Some _ => _ | None => _ end) as [n |];
      [| discriminate].
    cbn [mbind option_bind].
    destruct (randint st current_random_state (Z.to_nat n)) as [[seeds st1] |];
      [| discriminate].
    intros [= <- <-]. repeat split.
Qed.










End AugmenterFacts.

(** ** From the generator to the caller *)

Section PipelineFacts.
Import RandomStates Batches BatchLoader BackgroundAugmenter Views.

Context `{A : Augmenter} {G : Generator} {P : Platform} {U : UserCode}.








End PipelineFacts.

(** ** The statements on concrete inputs *)

Section Instances.
Import RandomStates Batches BatchLoader BackgroundAugmenter Toy Views.

(** C1 on the library's state right after the import, three children. *)
Lemma C1_witness :
  1 <= 3
  /\ get_state st0 CURRENT_RANDOM_STATE = Some 42
  /\ fst (rk_randint 42) + 3 - 1 <= 2 ^ 32 - 1
  /\ exists rs st',
       derive_random_states st0 CURRENT_RANDOM_STATE 3 = Some (rs, st')
       /\ Z.of_nat (length rs) = 3
       /\ get_state st' CURRENT_RANDOM_STATE = Some 1250496027
       /\ states_of st' rs = [Some 42; Some 43; Some 44].
Proof.
  assert (fst (rk_randint 42) + 3 - 1 <= 2 ^ 32 - 1) as Hlast
    by (vm_compute; discriminate).
  assert (1 <= 3) as Hn by lia.
  split; [exact Hn |]. split; [reflexivity |]. split; [exact Hlast |].
  destruct (C1_derive_random_states_deterministic
              st0 CURRENT_RANDOM_STATE 42 3 Hn eq_refl Hlast)
    as [(rs & st' & Hd & Hl & Hp & Hs & _) _].
  exists rs, st'. repeat split; assumption.
Defined.

Lemma current_is_an_object : CURRENT_RANDOM_STATE <> NpRandomModule.
Proof. discriminate. Qed.

(** C4 on the root stream: a copy, not the reference. *)
Lemma C4_witness :
  get_state st0 CURRENT_RANDOM_STATE = Some 42
  /\ exists c st',
       copy_random_state st0 CURRENT_RANDOM_STATE false = Some (c, st')
       /\ c <> CURRENT_RANDOM_STATE
       /\ get_state st' c = Some 42.
Proof.
  split; [reflexivity |].
  destruct (proj1 (proj2 (C4_copy_random_state_amended st0))
              CURRENT_RANDOM_STATE 42 false eq_refl
              (or_intror current_is_an_object))
    as (c & st' & Hc & _ & Hne & Hg & _).
  exists c, st'. split; [exact Hc |]. split; [exact Hne | exact Hg].
Defined.

(** The claim of C4 for the root stream fails: what comes back without
    [force_copy] is not the root stream's reference. *)
Lemma C4_counterexample :
  ~ exists st',
      copy_random_state st0 current_random_state false
      = Some (current_random_state, st').
Proof.
  intros [st' Hsame].
  destruct (copy_random_state_clone st0 current_random_state 42 false
              eq_refl (or_intror current_is_an_object))
    as (c & st1 & Hc & _ & Hne & _).
  rewrite Hsame in Hc. injection Hc as Hc _. congruence.
Qed.

(** C9 with the seeds 5 and -1. *)
Lemma C9_witness :
  0 <= 5 <= 2 ^ 32 - 1
  /\ (exists r st',
        new_random_state st0 (Some 5) true = Some (r, st')
        /\ get_state st' r = Some 5
        /\ current st' = current st0)
  /\ new_random_state st0 (Some (-1)) true = None.
Proof.
  assert (0 <= 5 <= 2 ^ 32 - 1) as Hin by (vm_compute; split; discriminate).
  split; [exact Hin |].
  pose proof (C9_new_random_state_seed_amended st0 5 true)
    as (_ & _ & Hok & _).
  pose proof (C9_new_random_state_seed_amended st0 (-1) true)
    as (_ & _ & _ & Hbad & _).
  split.
  - destruct (Hok Hin) as (r & st' & Hr & _ & Hg & _ & Hc & _).
    exists r, st'. split; [exact Hr |]. split; [exact Hg | exact Hc].
  - apply Hbad. left. reflexivity.
Defined.

(** The claim of C9 fails for an integer that is no seed of numpy's: no
    random state comes back, with either value of the flag. *)
Lemma C9_counterexample :
  new_random_state st0 (Some (-1)) true = None
  /\ new_random_state st0 (Some (-1)) false = None
  /\ new_random_state st0 (Some (2 ^ 32)) false = None.
Proof. repeat split. Qed.

(** C10 for two workers. *)
Lemma C10_witness :
  0 < 50 /\ 1 <= 2
  /\ exists Lt Lp st',
       BatchLoader_init st0 [] 50 2 true = Some (Lt, st')
       /\ BatchLoader_init st0 [] 50 2 false = Some (Lp, st')
       /\ map w_seedval (workers Lt) = [None; None]
       /\ map w_seedval (workers Lp) = [Some 42; Some 496027].
Proof.
  split; [lia |]. split; [lia |].
  destruct (proj1 (proj2 (C10_BatchLoader_init_draws_in_both_modes
                            st0 [] 50 2)) ltac:(lia) ltac:(lia))
    as (Lt & Lp & Ht & Hp & _ & Hst & Hsp & _).
  eexists Lt, Lp, _. split; [exact Ht |]. split; [exact Hp |].
  split; [exact Hst | exact Hsp].
Defined.

(** C5: one batch put, then the generator raises. *)
Lemma C5_witness :
  let env := [mkTick false false; mkTick false false] in
  for_batches (yields [only_images] ++ [GenBlock]) env
  = ([Put (pickle_dumps only_images)], InGenerator)
  /\ _load_batches st0 (yields [only_images] ++ [GenRaise tt]) env None
     = (st0, [Put (pickle_dumps only_images); PrintExc (Raised tt);
              SetFinished], Exited)
  /\ _load_batches st0 (yields [only_images]) env None
     = (st0, [Put (pickle_dumps only_images); SetFinished], Exited).
Proof.
  intros env. split; [reflexivity |].
  destruct (proj1 (C5_load_batches_sets_finished_once st0 None)
              [only_images] env [Put (pickle_dumps only_images)] eq_refl)
    as (Hend & Hraise & _).
  split; [exact (Hraise tt []) | exact Hend].
Defined.

(** C8 on a process-mode loader. *)
Lemma C8_witness :
  length (finished_signals process_loader) = length (workers process_loader)
  /\ closed (queue process_loader) = false
  /\ threaded process_loader = false
  /\ exists self',
       terminate process_loader [] = Returns self'
       /\ all_finished self' = true
       /\ items (queue self') = [].
Proof.
  split; [reflexivity |]. split; [reflexivity |]. split; [reflexivity |].
  pose proof (C8_terminate_amended process_loader [] eq_refl) as [Hret [Hp _]].
  destruct (Hp eq_refl eq_refl) as [self' Hself].
  destruct (Hret self' Hself) as (_ & Hit & Hall & _).
  exists self'. repeat split; assumption.
Defined.

(** The claim of C8 fails twice.  In thread mode, with a worker inside a
    generator that does not come back, [terminate()] does not return.  And
    [terminate()] is not idempotent where [get] on a closed queue raises: a
    second call on a loader that the first one has left raises. *)
Lemma C8_counterexample :
  (threaded hanging_loader = true
   /\ closed (queue hanging_loader) = false
   /\ length (finished_signals hanging_loader)
      = length (workers hanging_loader)
   /\ terminate hanging_loader [] = BlocksForever)
  /\ (closed_get_raises = true
      /\ exists self',
           terminate process_loader [] = Returns self'
           /\ terminate self' [] = Raises self').
Proof.
  split; [repeat split |]. split; [reflexivity |].
  eexists. split; reflexivity.
Qed.

(** C3 on a batch with images only. *)
Lemma C3_witness :
  self_augment_images self0 = true
  /\ is_not_None (images only_images) = true
  /\ augment_batch self0 ws0 only_images
     = inr (images_done, ws1).
Proof.
  split; [reflexivity |]. split; [reflexivity |].
  exact (proj1 (C3_single_stream_amended self0 ws0 only_images
                  eq_refl eq_refl eq_refl) eq_refl eq_refl eq_refl).
Defined.

(** The claim of C3 fails for a batch with ground-truth images only: the
    worker puts it on the result queue as it came, [images_gt_aug] still
    [None], and the pipeline has not been applied. *)
Lemma C3_counterexample :
  is_not_None (images_gt only_images_gt) = true
  /\ images only_images_gt = None /\ keypoints only_images_gt = None
  /\ worker_loop self0 ws0 [Got (pickle_dumps only_images_gt)]
     = ([pickle_dumps (Some only_images_gt)], InLoop, ws0)
  /\ images_gt_aug only_images_gt = None.
Proof. repeat split. Qed.


(** C7 on a batch with images only. *)
Lemma C7_witness :
  augment_batch self0 ws0 only_images
  = inr (images_done, ws1)
  /\ images images_done = images only_images
  /\ data images_done = data only_images.
Proof.
  split; [reflexivity |].
  destruct (proj1 (C7_worker_keeps_input_fields self0 ws0 only_images
                     images_done ws1 [] eq_refl))
    as (Hi & _ & _ & _ & Hd).
  split; assumption.
Defined.



End Instances.

(** * Further properties of the code *)

(** ** Seeding and the root stream *)

Section MoreRandomStateFacts.
Import RandomStates.

Context {G : Generator}.

Lemma rk_draws_add a : forall b v,
  rk_draws (a + b) v
  = (fst (rk_draws a v) ++ fst (rk_draws b (snd (rk_draws a v))),
     snd (rk_draws b (snd (rk_draws a v)))).
Proof.
  induction a as [| a IH]; intros b v.
  - simpl. destruct (rk_draws b v). reflexivity.
  - simpl. destruct (rk_randint v) as [x v1]. rewrite (IH b v1).
    destruct (rk_draws a v1) as [xs v2]. reflexivity.
Qed.

Lemma new_random_state_unseeded st :
  new_random_state st None false
  = Some (alloc (RandomState_seed (fst (rk_randint (current st))))
                (set_state st CURRENT_RANDOM_STATE
                           (snd (rk_randint (current st))))).
Proof.
  unfold new_random_state. cbn [negb].
  rewrite (randint_one st CURRENT_RANDOM_STATE (current st) eq_refl).
  cbn [mbind option_bind lookup list_lookup RandomState].
  rewrite seed_in_range_draw. reflexivity.
Qed.

(** X1.  [seed(s)] raises exactly when [s] is not a seed numpy accepts, an
    integer from 0 to [2**32 - 1].  After [seed(s)] with such a seed the
    states derived from the root stream do not depend on what the process
    did before: from any two process states, [seed(s)] followed by
    [derive_random_states(current_random_state(), n)], with [n] up to
    [2**32 - 10**6], gives lists of [n] states with the same state vectors,
    and leaves the root stream in the same state. *)
Theorem X1_seed_makes_derivation_reproducible (st1 st2 : store) (s n : Z) :
  (seed st1 s = None <-> s < 0 \/ 2 ^ 32 - 1 < s)
  /\ (0 <= s <= 2 ^ 32 - 1 -> n <= 2 ^ 32 - 10 ^ 6 ->
      exists st1s st2s rs1 st1' rs2 st2',
        seed st1 s = Some st1s
        /\ seed st2 s = Some st2s
        /\ derive_random_states st1s (current_random_state) n
           = Some (rs1, st1')
        /\ derive_random_states st2s (current_random_state) n
           = Some (rs2, st2')
        /\ states_of st1' rs1 = states_of st2' rs2
        /\ length rs1 = Z.to_nat n
        /\ current st1' = current st2'
        /\ current st1' = snd (rk_randint (RandomState_seed s))).
Proof.
  split.
  - unfold seed, RandomState_reseed.
    destruct (seed_in_range s) eqn:E.
    + apply seed_in_range_spec in E. split; [discriminate | lia].
    + split; [| reflexivity]. intros _.
      destruct (Z_lt_le_dec s 0) as [? | Hlo]; [left; assumption |].
      destruct (Z_lt_le_dec (2 ^ 32 - 1) s) as [? | Hhi];
        [right; assumption |].
      assert (seed_in_range s = true) as E'
        by (apply seed_in_range_spec; lia).
      congruence.
  - intros Hs Hn. apply seed_in_range_spec in Hs.
    unfold seed, RandomState_reseed. rewrite Hs.
    assert (fst (rk_randint (RandomState_seed s)) + n - 1 <= 2 ^ 32 - 1)
      as Hlast.
    { pose proof (rk_randint_range (RandomState_seed s)) as Hr.
      change (10 ^ 6) with 1000000 in *.
      change (2 ^ 32) with 4294967296 in *. lia. }
    destruct (derive_random_states_spec
                (set_state st1 CURRENT_RANDOM_STATE (RandomState_seed s))
                current_random_state (RandomState_seed s) n eq_refl Hlast)
      as (rs1 & st1' & Hd1 & Hl1 & Hp1 & Hs1 & _).
    destruct (derive_random_states_spec
                (set_state st2 CURRENT_RANDOM_STATE (RandomState_seed s))
                current_random_state (RandomState_seed s) n eq_refl Hlast)
      as (rs2 & st2' & Hd2 & Hl2 & Hp2 & Hs2 & _).
    eexists _, _, rs1, st1', rs2, st2'.
    split; [reflexivity |]. split; [reflexivity |].
    split; [exact Hd1 |]. split; [exact Hd2 |].
    split; [congruence |]. split; [exact Hl1 |].
    simpl in Hp1, Hp2. split; congruence.
Qed.

(** X2.  [derive_random_state(state)] returns one new random state,
    seeded with the integer it draws from [state]; [state] is one draw
    further and every other random state is as it was. *)
Theorem X2_derive_random_state_one_child
    (st : store) (r : pyref) (v : rk_state) :
  get_state st r = Some v ->
  exists c st',
    derive_random_state st r = Some (c, st')
    /\ is_new st c
    /\ get_state st' c = Some (RandomState_seed (fst (rk_randint v)))
    /\ get_state st' r = Some (snd (rk_randint v))
    /\ keeps_but r st st'.
Proof.
  intros Hr.
  assert (fst (rk_randint v) + 1 - 1 <= 2 ^ 32 - 1) as Hlast.
  { pose proof (rk_randint_range v) as Hv.
    change (10 ^ 6) with 1000000 in Hv.
    change (2 ^ 32) with 4294967296. lia. }
  destruct (derive_random_states_spec st r v 1 Hr Hlast)
    as (rs & st' & Hd & Hl & Hp & Hs & Hnew & _ & Hk).
  destruct rs as [| c [| c' rs]]; try discriminate.
  unfold derive_random_state. rewrite Hd. cbn.
  exists c, st'. split; [reflexivity |].
  split; [apply Forall_cons in Hnew as [Hc _]; exact Hc |].
  split; [| split; assumption].
  unfold states_of in Hs. simpl in Hs. injection Hs as Hs.
  rewrite Hs. do 3 f_equal. lia.
Qed.

(** X3.  Two calls of [new_random_state()] without a seed return two
    different new states, seeded with the first and the second integer of
    the root stream, which is left exactly two draws further. *)
Theorem X3_new_random_state_consecutive_draws (st : store) :
  exists r1 st1 r2 st2 d1 d2,
    new_random_state st None false = Some (r1, st1)
    /\ new_random_state st1 None false = Some (r2, st2)
    /\ r1 <> r2
    /\ fst (rk_draws 2 (current st)) = [d1; d2]
    /\ get_state st2 r1 = Some (RandomState_seed d1)
    /\ get_state st2 r2 = Some (RandomState_seed d2)
    /\ current st2 = snd (rk_draws 2 (current st)).
Proof.
  rewrite new_random_state_unseeded.
  destruct (alloc _ _) as [r1 st1] eqn:E1.
  destruct (alloc_new _ _ _ _ E1) as (Hn1 & Hg1 & Hk1 & _ & Hc1 & _).
  exists r1, st1.
  rewrite (new_random_state_unseeded st1).
  destruct (alloc _ (set_state st1 _ _)) as [r2 st2] eqn:E2.
  destruct (alloc_new _ _ _ _ E2) as (Hn2 & Hg2 & Hk2 & _ & Hc2 & _).
  exists r2, st2, (fst (rk_randint (current st))),
         (fst (rk_randint (snd (rk_randint (current st))))).
  assert (r1 <> CURRENT_RANDOM_STATE) as Hne1
      by (destruct Hn1 as (l & -> & _); discriminate).
  assert (get_state (set_state st1 CURRENT_RANDOM_STATE
                       (snd (rk_randint (current st1)))) r1
          = Some (RandomState_seed (fst (rk_randint (current st))))) as Hg1'.
  { rewrite get_set_state_ne by exact Hne1. exact Hg1. }
  split; [reflexivity |]. split; [reflexivity |].
  split; [intros ->; eapply is_new_neq in Hn2; [| exact Hg1']; congruence |].
  simpl in Hc1, Hc2. simpl.
  destruct (rk_randint (current st)) as [d1 v1] eqn:Ed1. simpl in *.
  rewrite Hc1 in *.
  destruct (rk_randint v1) as [d2 v2] eqn:Ed2. simpl in *.
  split; [reflexivity |]. split; [apply Hk2; exact Hg1' |].
  split; assumption.
Qed.

End MoreRandomStateFacts.

(** ** More on the loader *)

Section MoreLoaderFacts.
Import RandomStates Batches BatchLoader BackgroundAugmenter Views.

Context `{A : Augmenter} {G : Generator} {P : Platform} {U : UserCode}.

(** X4.  While the join signal is not set, a producer worker loses
    nothing: when it has returned after a generator that yielded the
    batches [bs] and then ended, it has put exactly the pickled [bs], in the
    generator's order, printed no exception, and then set its flag. *)
Theorem X4_load_batches_puts_every_batch
    (st : store) (bs : list Batch) (env : list tick) (seedval : option Z)
    (st' : store) (acts : list action) :
  Forall (fun t => join_set t = false) env ->
  _load_batches st (yields bs) env seedval = (st', acts, Exited) ->
  acts = map (fun b => Put (pickle_dumps b)) bs ++ [SetFinished].
Proof.
  intros Hno. rewrite _load_batches_eq.
  destruct (reseeded st seedval) as [stc | st1]; [discriminate |].
  destruct (for_batches (yields bs) env) as [acts0 e] eqn:E. simpl.
  destruct e as [[exc |] | |]; intros [= <- <-].
  - destruct (for_batches_no_join _ _ _ _ Hno E) as [? _]. discriminate.
  - destruct (for_batches_no_join _ _ _ _ Hno E) as [_ ->]. reflexivity.
Qed.

Lemma put_batches_app (a1 a2 : list action) :
  put_batches (a1 ++ a2) = put_batches a1 ++ put_batches a2.
Proof. apply omap_app. Qed.

Lemma for_batches_sublist gen : forall env,
  put_batches (fst (for_batches gen env)) `sublist_of` batches_of gen.
Proof.
  induction gen as [| g gen IH]; intros env; [constructor |].
  destruct g as [[b |] | e |];
    try (cbn [for_batches fst]; apply sublist_nil_l).
  change (batches_of (Yield (IsBatch b) :: gen)) with (b :: batches_of gen).
  cbn [for_batches].
  destruct (put_loop env) as [[w env1] |]; [| apply sublist_nil_l].
  assert (put_batches (if w then [Put (pickle_dumps b)] else [])
          `sublist_of` [b]) as Hone.
  { destruct w; [reflexivity | apply sublist_nil_l]. }
  destruct env1 as [| t env2].
  { cbn [fst]. apply (sublist_inserts_r (batches_of gen) _ [b]), Hone. }
  destruct (join_set t).
  { cbn [fst]. apply (sublist_inserts_r (batches_of gen) _ [b]), Hone. }
  specialize (IH env2). destruct (for_batches gen env2) as [rest e].
  cbn [fst] in *. rewrite put_batches_app.
  apply (sublist_app _ [b] _ (batches_of gen)); assumption.
Qed.

(** X5.  Whatever the queue and the join signal do, the batches a
    producer worker puts are batches its generator yielded, each at most
    once and in the generator's order. *)
Theorem X5_load_batches_puts_in_order
    (st : store) (gen : list gen_step) (env : list tick)
    (seedval : option Z) :
  put_batches (snd (fst (_load_batches st gen env seedval)))
  `sublist_of` batches_of gen.
Proof.
  rewrite _load_batches_eq. pose proof (for_batches_sublist gen env) as Hsub.
  destruct (reseeded st seedval) as [stc | st1]; [apply sublist_nil_l |].
  destruct (for_batches gen env) as [acts [[exc |] | |]]; cbn [fst snd] in *;
    try exact Hsub; rewrite put_batches_app; cbn; rewrite app_nil_r;
    exact Hsub.
Qed.

(** X6.  Once the join signal is set a producer worker puts nothing any
    more: a batch it holds is dropped.  Unless its generator blocks, it
    needs no more than two looks at the signal to set its flag and
    return (a worker with a seed that numpy refuses is over before that,
    without setting anything). *)
Theorem X6_load_batches_stops_on_join_signal
    (st : store) (gen : list gen_step) (env : list tick)
    (seedval : option Z) :
  Forall (fun t => join_set t = true) env ->
  put_batches (snd (fst (_load_batches st gen env seedval))) = []
  /\ ((2 <= length env)%nat ->
      (forall rest, gen <> GenBlock :: rest) ->
      snd (_load_batches st gen env seedval)
      = match reseeded st seedval with
        | inr _ => Exited
        | inl _ => Crashed
        end).
Proof.
  intros Hset.
  assert (fst (for_batches gen env) = []
          /\ ((2 <= length env)%nat ->
              (forall rest, gen <> GenBlock :: rest) ->
              exists e, snd (for_batches gen env) = Finished e)) as [Hacts Hend].
  { destruct gen as [| [[b |] | e |] gen].
    - split; [reflexivity | intros _ _; eexists; reflexivity].
    - destruct env as [| t env]; [split; [reflexivity | simpl; lia] |].
      apply Forall_cons in Hset as [Ht Hset]. cbn [for_batches put_loop].
      rewrite Ht. destruct env as [| t' env];
        [split; [reflexivity | simpl; lia] |].
      apply Forall_cons in Hset as [Ht' _]. rewrite Ht'.
      split; [reflexivity | intros _ _; eexists; reflexivity].
    - split; [reflexivity | intros _ _; eexists; reflexivity].
    - split; [reflexivity | intros _ _; eexists; reflexivity].
    - split; [reflexivity |]. intros _ Hne. destruct (Hne gen eq_refl). }
  rewrite _load_batches_eq.
  destruct (reseeded st seedval) as [stc | st1];
    [split; [reflexivity | intros _ _; reflexivity] |].
  split.
  - destruct (snd (for_batches gen env)) as [[exc |] | |]; cbn [fst snd];
      rewrite Hacts; reflexivity.
  - intros Hlen Hne. destruct (Hend Hlen Hne) as [e ->].
    destruct e; reflexivity.
Qed.

(** X7.  [BatchLoader(...)] raises exactly when [queue_size <= 0] or
    [nb_workers < 1].  Otherwise the new loader has [nb_workers] workers on
    the given generator with a flag each, none of them set, so that it is
    not [all_finished()]; its queue is open and empty and its join signal is
    not set. *)
Theorem X7_BatchLoader_init_fresh
    (st : store) (load_batch_func : list gen_step)
    (queue_size nb_workers : Z) (threaded : bool) :
  (is_Some (BatchLoader_init st load_batch_func queue_size nb_workers threaded)
   <-> 0 < queue_size /\ 1 <= nb_workers)
  /\ (forall self st',
        BatchLoader_init st load_batch_func queue_size nb_workers threaded
        = Some (self, st') ->
        all_finished self = false
        /\ join_signal self = false
        /\ queue self = mkQueue queue_size [] false
        /\ Z.of_nat (length (workers self)) = nb_workers
        /\ length (finished_signals self) = length (workers self)
        /\ Forall (fun w => w_gen w = load_batch_func) (workers self)
        /\ BatchLoader.threaded self = threaded).
Proof.
  split.
  - split.
    + intros [x Hx]. unfold BatchLoader_init in Hx.
      destruct (0 <? queue_size) eqn:Eq; [| discriminate].
      destruct (1 <=? nb_workers) eqn:Ew; [| discriminate]. lia.
    + intros [Hq Hw]. rewrite BatchLoader_init_ok by assumption. eauto.
  - intros self st' Hinit.
    assert (0 < queue_size /\ 1 <= nb_workers) as [Hq Hw].
    { unfold BatchLoader_init in Hinit.
      destruct (0 <? queue_size) eqn:Eq; [| discriminate].
      destruct (1 <=? nb_workers) eqn:Ew; [| discriminate]. lia. }
    rewrite BatchLoader_init_ok in Hinit by assumption.
    cbv zeta in Hinit. injection Hinit as <- <-.
    pose proof (rk_draws_length (Z.to_nat nb_workers) (current st)) as Hlen.
    set (seeds := fst (rk_draws (Z.to_nat nb_workers) (current st))) in *.
    cbn [all_finished finished_signals join_signal queue workers
         BatchLoader.threaded].
    split; [destruct seeds; [simpl in Hlen; lia | reflexivity] |].
    split; [reflexivity |]. split; [reflexivity |].
    split; [rewrite length_map; lia |].
    split; [rewrite !length_map; reflexivity |].
    split; [| reflexivity].
    apply Forall_forall. intros w Hin.
    apply list_elem_of_In, in_map_iff in Hin as (x & <- & _). reflexivity.
Qed.

(** The number of workers [BackgroundAugmenter.__init__] settles on. *)
Lemma BackgroundAugmenter_init_eq (st : store) (a : aug) (x g : option aug)
    (queue_size : Z) (nb : option Z) :
  BackgroundAugmenter_init st a x g queue_size nb
  = if negb (0 <? queue_size) then None
    else match nb with
         | Some n => if 1 <=? n then Some n else None
         | None => Some (Z.max 1 (match cpu_count with
                                   | Some c => c
                                   | None => 1
                                   end - 1))
         end ≫= fun n =>
           Some (mkAugmenter a x g [] n 0 true true true
                   (fst (rk_draws (Z.to_nat n) (current st))),
                 set_state st CURRENT_RANDOM_STATE
                           (snd (rk_draws (Z.to_nat n) (current st)))).
Proof.
  unfold BackgroundAugmenter_init.
  destruct (negb (0 <? queue_size)); [reflexivity |].
  destruct nb as [n |]; [destruct (1 <=? n); [| reflexivity] |];
    cbn [mbind option_bind]; rewrite randint_current; reflexivity.
Qed.

(** X8.  The worker seeds of the two stages are consecutive integers of
    the root stream: a loader with [W1] workers followed by an augmenter
    with [W2] workers takes the first [W1] and the next [W2] of its draws,
    and leaves the root stream [W1 + W2] draws further and every other
    random state of the process as it was. *)
Theorem X8_stage_seeds_are_consecutive_draws
    (st st1 st2 : store) (load_batch_func : list gen_step)
    (queue_size W1 queue_size2 W2 : Z) (threaded : bool)
    (loader : BatchLoader) (a : aug) (x g : option aug)
    (augmenter : BackgroundAugmenter) :
  BatchLoader_init st load_batch_func queue_size W1 threaded
  = Some (loader, st1) ->
  BackgroundAugmenter_init st1 a x g queue_size2 (Some W2)
  = Some (augmenter, st2) ->
  let draws := rk_draws (Z.to_nat W1 + Z.to_nat W2) (current st) in
  (threaded = false ->
   map w_seedval (workers loader)
   = map Some (take (Z.to_nat W1) (fst draws)))
  /\ worker_seeds augmenter = drop (Z.to_nat W1) (fst draws)
  /\ current st2 = snd draws
  /\ np_global st2 = np_global st
  /\ heap st2 = heap st.
Proof.
  intros Hl Ha draws.
  assert (0 < queue_size /\ 1 <= W1) as [Hq Hw].
  { unfold BatchLoader_init in Hl.
    destruct (0 <? queue_size) eqn:Eq; [| discriminate].
    destruct (1 <=? W1) eqn:Ew; [| discriminate]. lia. }
  rewrite BatchLoader_init_ok in Hl by assumption. cbv zeta in Hl.
  injection Hl as <- <-.
  rewrite BackgroundAugmenter_init_eq in Ha.
  destruct (negb (0 <? queue_size2)); [discriminate |].
  destruct (1 <=? W2); [| discriminate]. cbn [mbind option_bind] in Ha.
  injection Ha as <- <-.
  unfold draws. rewrite rk_draws_add. cbn [fst snd].
  pose proof (rk_draws_length (Z.to_nat W1) (current st)) as Hlen.
  split; [| split; [| split; [| split]]]; cbn.
  - intros ->. rewrite take_app_length' by (symmetry; exact Hlen).
    rewrite map_map. reflexivity.
  - rewrite drop_app_length' by (symmetry; exact Hlen). reflexivity.
  - reflexivity.
  - reflexivity.
  - reflexivity.
Qed.

(** X9.  [BackgroundAugmenter(...)] raises exactly when [queue_size <= 0]
    or a number of workers below one is asked for.  With ["auto"] it takes
    one worker less than the machine has cores, and at least one.  The new
    augmenter has that many worker seeds, the next integers of the root
    stream, no finished worker yet, and all three streams switched on. *)
Theorem X9_BackgroundAugmenter_init_workers
    (st : store) (a : aug) (x g : option aug) (queue_size : Z)
    (nb : option Z) :
  (is_Some (BackgroundAugmenter_init st a x g queue_size nb)
   <-> 0 < queue_size /\ forall n, nb = Some n -> 1 <= n)
  /\ (forall self st',
        BackgroundAugmenter_init st a x g queue_size nb = Some (self, st') ->
        1 <= nb_workers self
        /\ nb_workers self
           = match nb with
             | Some n => n
             | None => Z.max 1 (match cpu_count with
                                | Some c => c
                                | None => 1
                                end - 1)
             end
        /\ Z.of_nat (length (worker_seeds self)) = nb_workers self
        /\ worker_seeds self
           = fst (rk_draws (Z.to_nat (nb_workers self)) (current st))
        /\ current st'
           = snd (rk_draws (Z.to_nat (nb_workers self)) (current st))
        /\ nb_workers_finished self = 0
        /\ queue_result self = []
        /\ self_augment_images self && self_augment_images_gt self
           && self_augment_keypoints self = true).
Proof.
  rewrite BackgroundAugmenter_init_eq. split.
  - destruct (0 <? queue_size) eqn:Eq; cbn [negb].
    + destruct nb as [n |].
      * destruct (1 <=? n) eqn:En; cbn [mbind option_bind].
        -- split; [intros _; split; [lia |]; intros ? [= <-]; lia | eauto].
        -- split; [intros [? ?]; discriminate |].
           intros [_ Hn]. specialize (Hn n eq_refl). lia.
      * cbn [mbind option_bind].
        split; [intros _; split; [lia | discriminate] | eauto].
    + split; [intros [? ?]; discriminate | lia].
  - intros self st'. destruct (negb (0 <? queue_size)); [discriminate |].
    destruct nb as [n |].
    + destruct (1 <=? n) eqn:En; [| discriminate].
      cbn [mbind option_bind]. intros [= <- <-]. cbn.
      rewrite rk_draws_length. repeat split; lia.
    + cbn [mbind option_bind]. intros [= <- <-]. cbn.
      rewrite rk_draws_length. repeat split; lia.
Qed.

End MoreLoaderFacts.

(** ** More on the augmenter *)

Section MoreAugmenterFacts.
Import RandomStates Batches BackgroundAugmenter Views.

Context `{A : Augmenter} {G : Generator} {P : Platform}.

Implicit Types (self : BackgroundAugmenter) (ws : worker_state).

Lemma payloads_cons_batch (b : Batch) (q : list message) :
  payloads (pickle_dumps (Some b) :: q) = b :: payloads q.
Proof. reflexivity. Qed.

Lemma payloads_cons_sentinel (q : list message) :
  payloads (pickle_dumps (@None Batch) :: q) = payloads q.
Proof. reflexivity. Qed.

(** X10.  What a consumer worker puts on the result queue are the batches
    it took from the source queue, in the order it took them, each with its
    [images], [images_gt], [mask_gt], [keypoints] and [data] as they came; a
    worker that has not died has put one batch for every batch taken. *)
Theorem X10_worker_output_follows_input self (polls : list poll) :
  forall ws out s wsf,
    worker_loop self ws polls = (out, s, wsf) ->
    Forall2 same_inputs
            (take (length (payloads out)) (map pickle_loads (taken polls)))
            (payloads out)
    /\ match s with
       | Died _ => (length (payloads out) < length (taken polls))%nat
       | _ => length (payloads out) = length (taken polls)
       end.
Proof.
  induction polls as [| p polls IH]; intros ws out s wsf Hrun.
  - injection Hrun as <- <- <-. split; [constructor | reflexivity].
  - destruct p as [batch_str | signals]; cbn [worker_loop taken] in Hrun |- *.
    + destruct (augment_batch self ws (pickle_loads batch_str))
        as [e | [batch' ws']] eqn:Ea.
      * injection Hrun as <- <- <-. split; [constructor | simpl; lia].
      * destruct (worker_loop self ws' polls) as [[out' s'] wsf'] eqn:E.
        injection Hrun as <- <- <-.
        destruct (IH _ _ _ _ E) as [Hin Hlen].
        rewrite payloads_cons_batch. cbn [length map take]. split.
        -- constructor; [| exact Hin].
           apply (augment_batch_same_inputs _ _ _ _ _ Ea).
        -- destruct s'; simpl; lia.
    + destruct (forallb id signals).
      * injection Hrun as <- <- <-. split; [constructor | reflexivity].
      * apply (IH _ _ _ _ Hrun).
Qed.

(** X11.  Once the counter of finished workers has reached [nb_workers],
    no further call of [get_batch()] returns [None]: a call returns a batch
    or does not return. *)
Theorem X11_get_batch_no_second_None (nb : Z) (q : list message) :
  forall f, nb <= f -> fst (get_batch nb q f) <> ReturnsNone.
Proof.
  induction q as [| [[b |]] q IH]; intros f Hf; cbn; try discriminate.
  rewrite (proj2 (Z.eqb_neq (f + 1) nb)) by lia.
  apply IH. lia.
Qed.

Lemma get_batch_payloads (nb : Z) (q : list message) : forall f,
  payloads q
  = returned_batches [fst (get_batch nb q f)]
    ++ payloads (fst (snd (get_batch nb q f))).
Proof.
  induction q as [| [[b |]] q IH]; intros f; [reflexivity | reflexivity |].
  rewrite payloads_cons_sentinel. cbn [get_batch pickle_loads].
  destruct (f + 1 =? nb); [reflexivity | apply IH].
Qed.

(** X12.  Calls of [get_batch()] hand out the batches of the result queue
    first in, first out, and skip none: after any number of calls, the
    batches returned so far followed by the batches still on the queue are
    the batches the queue held. *)
Theorem X12_get_batch_is_fifo (calls : nat) (nb : Z) :
  forall (q : list message) (f : Z),
    payloads q
    = returned_batches (fst (get_batches calls nb q f))
      ++ payloads (fst (snd (get_batches calls nb q f))).
Proof.
  induction calls as [| k IH]; intros q f; [reflexivity |].
  cbn [get_batches]. pose proof (get_batch_payloads nb q f) as Hone.
  destruct (get_batch nb q f) as [r [q1 f1]]. cbn [fst snd] in Hone.
  specialize (IH q1 f1).
  destruct (get_batches k nb q1 f1) as [rs [q2 f2]]. cbn [fst snd] in *.
  rewrite Hone, IH.
  change (returned_batches (r :: rs))
    with (returned_batches ([r] ++ rs)).
  unfold returned_batches. rewrite omap_app, app_assoc. reflexivity.
Qed.

(** X13.  A batch with images and keypoints goes through the first branch
    whatever else it carries: also when ground-truth images are present,
    these are not augmented, [images_gt_aug] and [mask_gt_aug] stay as they
    were, and the pipelines [augseq_X] and [augseq_gt] are not used. *)
Theorem X13_keypoints_take_precedence_over_ground_truth
    self ws (batch batch' : Batch) ws' :
  self_augment_images self = true ->
  self_augment_keypoints self = true ->
  is_not_None (images batch) = true ->
  is_not_None (keypoints batch) = true ->
  augment_batch self ws batch = inr (batch', ws') ->
  images_gt_aug batch' = images_gt_aug batch
  /\ mask_gt_aug batch' = mask_gt_aug batch
  /\ w_augseq_X ws' = w_augseq_X ws
  /\ w_augseq_gt ws' = w_augseq_gt ws
  /\ exists ia ka,
       batch' = set_keypoints_aug ka (set_images_aug ia batch).
Proof.
  intros Hi Hk Him Hkp. unfold augment_batch. rewrite Hi, Hk, Him, Hkp.
  cbn [andb]. unfold with_det. intros Hrun.
  destruct (deterministic (w_augseq ws)).
  - destruct (augment_images (w_augseq ws) (images batch)) as [e | [ia d1]];
      [discriminate |]. cbn [bind_exn] in Hrun.
    destruct (augment_keypoints d1 (keypoints batch)) as [e | [ka d2]];
      [discriminate |]. cbn [bind_exn] in Hrun.
    injection Hrun as <- <-. repeat split. eauto.
  - destruct (to_deterministic (w_augseq ws)) as [e | [d a1]];
      [discriminate |]. cbn [bind_exn] in Hrun.
    destruct (augment_images d (images batch)) as [e | [ia d1]];
      [discriminate |]. cbn [bind_exn] in Hrun.
    destruct (augment_keypoints d1 (keypoints batch)) as [e | [ka d2]];
      [discriminate |]. cbn [bind_exn] in Hrun.
    injection Hrun as <- <-. repeat split. eauto.
Qed.

End MoreAugmenterFacts.

(** ** Bounding boxes *)

Section BoxFacts.
Import Geometry.

Context `{L : Labels}.

Implicit Types (self other bb : BoundingBox) (image : shape).

(** Case analysis on the integer comparisons of a goal. *)
Ltac compare_all :=
  rewrite ?Z.gtb_ltb, ?Z.geb_leb;
  repeat (match goal with
          | |- context [Z.ltb ?a ?b] => destruct (Z.ltb_spec a b)
          | |- context [Z.leb ?a ?b] => destruct (Z.leb_spec a b)
          | |- context [Z.eqb ?a ?b] => destruct (Z.eqb_spec a b)
          end; cbn [negb orb andb]; rewrite ?Z.gtb_ltb, ?Z.geb_leb).

Lemma BoundingBox_init_eq (a b c d : Z) (l : option Label) :
  BoundingBox_init a b c d l
  = if (a =? c) || (b =? d) then None
    else Some (mkBoundingBox (Z.min a c) (Z.min b d) (Z.max a c) (Z.max b d) l).
Proof.
  unfold BoundingBox_init. compare_all;
    try reflexivity; try lia; f_equal; f_equal; lia.
Qed.

Lemma BoundingBox_init_ordered (a b c d : Z) (l : option Label) :
  a < c -> b < d ->
  BoundingBox_init a b c d l = Some (mkBoundingBox a b c d l).
Proof.
  intros Hac Hbd. rewrite BoundingBox_init_eq. compare_all; try lia.
  f_equal. f_equal; lia.
Qed.

(** X14.  [BoundingBox(x1, y1, x2, y2)] raises exactly when [x1 == x2] or
    [y1 == y2].  Otherwise the box has its corners in order, whichever way
    they were given: [x1 < x2] and [y1 < y2], so that width, height and
    area are positive. *)
Theorem X14_BoundingBox_init_orders_corners
    (a b c d : Z) (l : option Label) :
  (BoundingBox_init a b c d l = None <-> a = c \/ b = d)
  /\ BoundingBox_init a b c d l = BoundingBox_init c d a b l
  /\ (forall bb,
        BoundingBox_init a b c d l = Some bb ->
        valid bb
        /\ x1 bb = Z.min a c /\ x2 bb = Z.max a c
        /\ y1 bb = Z.min b d /\ y2 bb = Z.max b d
        /\ label bb = l
        /\ 0 < width bb /\ 0 < height bb /\ 0 < area bb).
Proof.
  rewrite !BoundingBox_init_eq. split; [| split].
  - compare_all; split; try discriminate; try tauto; try lia; intros [|]; lia.
  - compare_all; try reflexivity; try lia. f_equal. f_equal; lia.
  - intros bb. compare_all; try discriminate. intros [= <-].
    unfold valid, area, width, height. cbn. repeat split; try lia; nia.
Qed.

(** X15.  [intersection] never raises.  It returns the default exactly when
    the two boxes share no area; otherwise it returns a box in corner order,
    without a label, that lies inside both boxes and contains every box
    that lies inside both.  The order of the two boxes does not matter. *)
Theorem X15_intersection_is_largest_common_box
    {D : Type} self other (default : D) :
  intersection self other default = intersection other self default
  /\ (intersection self other default = Some (inl default)
      <-> Z.min (x2 self) (x2 other) <= Z.max (x1 self) (x1 other)
          \/ Z.min (y2 self) (y2 other) <= Z.max (y1 self) (y1 other))
  /\ (exists r, intersection self other default = Some r)
  /\ (forall i,
        intersection self other default = Some (inr i) ->
        valid i /\ inside i self /\ inside i other /\ label i = None
        /\ forall bb, valid bb -> inside bb self -> inside bb other ->
                      inside bb i).
Proof.
  unfold intersection. split; [| split; [| split]].
  - rewrite (Z.max_comm (x1 self)), (Z.max_comm (y1 self)),
            (Z.min_comm (x2 self)), (Z.min_comm (y2 self)). reflexivity.
  - destruct ((_ >=? _) || (_ >=? _)) eqn:E.
    + split; [intros _ | reflexivity].
      apply orb_true_iff in E as [E | E]; apply Z.geb_le in E; lia.
    + apply orb_false_iff in E as [E1 E2].
      rewrite Z.geb_leb in E1, E2. apply Z.leb_gt in E1, E2.
      rewrite BoundingBox_init_ordered by lia.
      split; [discriminate | lia].
  - destruct ((_ >=? _) || (_ >=? _)) eqn:E; [eauto |].
    apply orb_false_iff in E as [E1 E2].
    rewrite Z.geb_leb in E1, E2. apply Z.leb_gt in E1, E2.
    rewrite BoundingBox_init_ordered by lia. eauto.
  - intros i. destruct ((_ >=? _) || (_ >=? _)) eqn:E; [discriminate |].
    apply orb_false_iff in E as [E1 E2].
    rewrite Z.geb_leb in E1, E2. apply Z.leb_gt in E1, E2.
    rewrite BoundingBox_init_ordered by lia. intros [= <-].
    unfold valid, inside. cbn. repeat split; try lia.
    all: intros; lia.
Qed.

(** X16.  For two boxes in corner order [union] does not raise: it returns
    the smallest box that contains both, without a label, and the order of
    the two does not matter. *)
Theorem X16_union_is_smallest_enclosing_box self other :
  valid self -> valid other ->
  union self other = union other self
  /\ exists u,
       union self other = Some u
       /\ valid u /\ inside self u /\ inside other u /\ label u = None
       /\ forall bb, inside self bb -> inside other bb -> inside u bb.
Proof.
  intros [Hsx Hsy] [Hox Hoy]. unfold union. split.
  - rewrite (Z.min_comm (x1 self)), (Z.min_comm (y1 self)),
            (Z.max_comm (x2 self)), (Z.max_comm (y2 self)). reflexivity.
  - rewrite BoundingBox_init_ordered by lia. eexists. split; [reflexivity |].
    unfold valid, inside. cbn. repeat split; try lia.
    all: intros; lia.
Qed.

Lemma copy_label_kept self :
  match label self with None => label self | Some l => Some l end = label self.
Proof. destruct (label self); reflexivity. Qed.

Lemma is_partly_within_image_eq self image :
  0 < sh_height image -> 0 < sh_width image ->
  is_partly_within_image self image
  = Some ((Z.max (x1 self) 0 <? Z.min (x2 self) (sh_width image))
          && (Z.max (y1 self) 0 <? Z.min (y2 self) (sh_height image))).
Proof.
  intros Hh Hw. unfold is_partly_within_image.
  rewrite BoundingBox_init_ordered by assumption. cbn [mbind option_bind].
  unfold intersection. cbn [x1 x2 y1 y2].
  destruct ((_ >=? _) || (_ >=? _)) eqn:E.
  - cbn. f_equal. symmetry.
    apply orb_true_iff in E as [E | E]; apply Z.geb_le in E.
    + rewrite (proj2 (Z.ltb_ge _ _) E). reflexivity.
    + rewrite (proj2 (Z.ltb_ge _ _) E). apply andb_false_r.
  - apply orb_false_iff in E as [E1 E2].
    rewrite Z.geb_leb in E1, E2. apply Z.leb_gt in E1, E2.
    rewrite BoundingBox_init_ordered by lia. cbn.
    rewrite (proj2 (Z.ltb_lt _ _) E1), (proj2 (Z.ltb_lt _ _) E2). reflexivity.
Qed.

Lemma cut_out_of_image_eq self image :
  valid self -> 0 < sh_height image -> 0 < sh_width image ->
  cut_out_of_image self image
  = if (Z.max (x1 self) 0 <? Z.min (x2 self) (sh_width image))
       && (Z.max (y1 self) 0 <? Z.min (y2 self) (sh_height image))
    then Some (mkBoundingBox (np_clip (x1 self) 0 (sh_width image))
                             (np_clip (y1 self) 0 (sh_height image))
                             (np_clip (x2 self) 0 (sh_width image))
                             (np_clip (y2 self) 0 (sh_height image))
                             (label self))
    else None.
Proof.
  intros [Hx Hy] Hh Hw. unfold cut_out_of_image, copy.
  rewrite (proj2 (Z.gtb_lt _ _) Hh), (proj2 (Z.gtb_lt _ _) Hw). cbn [negb].
  rewrite copy_label_kept, BoundingBox_init_eq. unfold np_clip.
  compare_all; try reflexivity; try lia. f_equal. f_equal; lia.
Qed.

(** X17.  On integer coordinates and an image of positive size,
    [cut_out_of_image] of a box in corner order raises when the box shares
    no area with the image, and otherwise returns the box clipped to the
    image: its corners are [max(x1, 0)], [max(y1, 0)], [min(x2, width)] and
    [min(y2, height)], it has the original's label, is in corner order,
    fully within the image and inside the original; a box that is fully
    within the image comes back as it is. *)
Theorem X17_cut_out_of_image_clips_or_raises self image :
  valid self -> 0 < sh_height image -> 0 < sh_width image ->
  exists p,
    is_partly_within_image self image = Some p
    /\ (p = true
        <-> Z.max (x1 self) 0 < Z.min (x2 self) (sh_width image)
            /\ Z.max (y1 self) 0 < Z.min (y2 self) (sh_height image))
    /\ (p = false -> cut_out_of_image self image = None)
    /\ (p = true ->
        cut_out_of_image self image
        = Some (mkBoundingBox (Z.max (x1 self) 0) (Z.max (y1 self) 0)
                              (Z.min (x2 self) (sh_width image))
                              (Z.min (y2 self) (sh_height image))
                              (label self))
        /\ exists bb,
             cut_out_of_image self image = Some bb
             /\ valid bb
             /\ is_fully_within_image bb image = true
             /\ inside bb self
             /\ label bb = label self)
    /\ (is_fully_within_image self image = true ->
        p = true /\ cut_out_of_image self image = Some self).
Proof.
  intros Hv Hh Hw. eexists. split; [apply is_partly_within_image_eq; assumption |].
  rewrite cut_out_of_image_eq by assumption. destruct Hv as [Hx Hy].
  destruct ((_ <? _) && (_ <? _)) eqn:E.
  - apply andb_true_iff in E as [E1 E2]. apply Z.ltb_lt in E1, E2.
    split; [split; [intros _; split; assumption | reflexivity] |].
    split; [discriminate |]. split.
    + intros _. split.
      * unfold np_clip. f_equal. f_equal; lia.
      * eexists. split; [reflexivity |].
        unfold valid, inside, is_fully_within_image, np_clip. cbn.
        repeat split; lia.
    + intros Hin. split; [reflexivity |].
      unfold is_fully_within_image in Hin.
      apply andb_true_iff in Hin as [Hin H4].
      apply andb_true_iff in Hin as [Hin H3].
      apply andb_true_iff in Hin as [H1 H2].
      rewrite Z.geb_leb in H1, H3. apply Z.leb_le in H1, H2, H3, H4.
      destruct self as [a b c d l]. cbn in *. unfold np_clip.
      f_equal. f_equal; lia.
  - split.
    { split; [discriminate |]. intros [E1 E2]. exfalso.
      apply andb_false_iff in E as [E | E]; apply Z.ltb_ge in E; lia. }
    split; [reflexivity |]. split; [discriminate |].
    intros Hin. exfalso.
    unfold is_fully_within_image in Hin.
    apply andb_true_iff in Hin as [Hin H4].
    apply andb_true_iff in Hin as [Hin H3].
    apply andb_true_iff in Hin as [H1 H2].
    rewrite Z.geb_leb in H1, H3. apply Z.leb_le in H1, H2, H3, H4.
    apply andb_false_iff in E as [E | E]; apply Z.ltb_ge in E; lia.
Qed.

Lemma is_out_of_image_eq self image (fully partly : bool) :
  0 < sh_height image -> 0 < sh_width image ->
  is_out_of_image self image fully partly
  = Some (if is_fully_within_image self image then false
          else if (Z.max (x1 self) 0 <? Z.min (x2 self) (sh_width image))
                  && (Z.max (y1 self) 0 <? Z.min (y2 self) (sh_height image))
               then partly else fully).
Proof.
  intros Hh Hw. unfold is_out_of_image.
  destruct (is_fully_within_image self image); [reflexivity |].
  rewrite is_partly_within_image_eq by assumption. reflexivity.
Qed.

Lemma comprehension_map {X Y : Type} (p : X -> option bool)
    (f : X -> option Y) (pb : X -> bool) (fb : X -> Y) (l : list X) :
  Forall (fun x => p x = Some (pb x)) l ->
  Forall (fun x => pb x = true -> f x = Some (fb x)) l ->
  comprehension p f l = Some (map fb (List.filter pb l)).
Proof.
  induction l as [| x l IH]; intros Hp Hf; [reflexivity |].
  apply Forall_cons in Hp as [Hpx Hp]. apply Forall_cons in Hf as [Hfx Hf].
  cbn [comprehension List.filter]. rewrite Hpx. cbn [mbind option_bind].
  destruct (pb x).
  - rewrite (Hfx eq_refl), (IH Hp Hf). reflexivity.
  - apply IH; assumption.
Qed.

Lemma filter_sublist {X : Type} (pb : X -> bool) (l : list X) :
  List.filter pb l `sublist_of` l.
Proof.
  induction l as [| x l IH]; [constructor |]. simpl.
  destruct (pb x); [apply sublist_skip | apply sublist_cons]; exact IH.
Qed.

(** X18.  On an image of positive size [remove_out_of_image] does not
    raise and returns, in their order, the boxes that are fully within the
    image, those that only share area with it unless [partly] is set, and
    those that share none unless [fully] is set; with the defaults, the
    boxes that share area with the image.  On an image of width or height
    zero the test itself raises for every box in corner order. *)
Theorem X18_remove_out_of_image_keeps
    (self : BoundingBoxesOnImage) (fully partly : bool) :
  let image := bbs_shape self in
  (0 < sh_height image -> 0 < sh_width image ->
   exists kept,
     remove_out_of_image self fully partly
     = Some (mkBoundingBoxesOnImage kept image)
     /\ kept `sublist_of` bounding_boxes self
     /\ forall bb,
          In bb kept
          <-> In bb (bounding_boxes self)
              /\ (is_fully_within_image bb image = true
                  \/ (partly = false
                      /\ is_partly_within_image bb image = Some true)
                  \/ (fully = false
                      /\ is_partly_within_image bb image = Some false)))
  /\ (forall bb,
        valid bb -> sh_height image = 0 \/ sh_width image = 0 ->
        is_out_of_image bb image fully partly = None).
Proof.
  intros image. split.
  - intros Hh Hw. unfold remove_out_of_image. fold image.
    set (keep bb := negb (if is_fully_within_image bb image then false
          else if (Z.max (x1 bb) 0 <? Z.min (x2 bb) (sh_width image))
                  && (Z.max (y1 bb) 0 <? Z.min (y2 bb) (sh_height image))
               then partly else fully)).
    rewrite (comprehension_map _ _ keep id).
    + cbn [mbind option_bind]. rewrite map_id. eexists.
      split; [reflexivity |]. split; [apply filter_sublist |].
      intros bb. rewrite filter_In. unfold keep.
      rewrite (is_partly_within_image_eq bb image Hh Hw).
      destruct (is_fully_within_image bb image);
        destruct ((_ <? _) && (_ <? _)); destruct partly; destruct fully;
        cbn; intuition congruence.
    + apply Forall_forall. intros bb _.
      rewrite is_out_of_image_eq by assumption. reflexivity.
    + apply Forall_forall. intros bb _ _. reflexivity.
  - intros bb [Hx Hy] Hzero. unfold is_out_of_image.
    assert (is_fully_within_image bb image = false) as ->.
    { unfold is_fully_within_image. compare_all; try reflexivity; lia. }
    unfold is_partly_within_image. rewrite BoundingBox_init_eq.
    destruct Hzero as [-> | ->]; compare_all; try reflexivity; lia.
Qed.

(** X19.  On integer coordinates and an image of positive size,
    [cut_out_of_image] of a list of boxes in corner order does not raise.
    The result holds, in their order, the boxes that share area with the
    image, each clipped to it as [BoundingBox.cut_out_of_image] does
    (corners [max(x1, 0)], [max(y1, 0)], [min(x2, width)],
    [min(y2, height)], label kept); the boxes that share no area with the
    image are left out before the cut.  Every box of the result is in
    corner order and fully within the image, and boxes that were fully
    within the image all come back unchanged. *)
Theorem X19_cut_out_of_image_of_all_boxes (self : BoundingBoxesOnImage) :
  let image := bbs_shape self in
  0 < sh_height image -> 0 < sh_width image ->
  Forall valid (bounding_boxes self) ->
  let shares bb :=
    (Z.max (x1 bb) 0 <? Z.min (x2 bb) (sh_width image))
    && (Z.max (y1 bb) 0 <? Z.min (y2 bb) (sh_height image)) in
  let clipped bb :=
    mkBoundingBox (Z.max (x1 bb) 0) (Z.max (y1 bb) 0)
                  (Z.min (x2 bb) (sh_width image))
                  (Z.min (y2 bb) (sh_height image)) (label bb) in
  exists cut,
    BoundingBoxesOnImage_cut_out_of_image self
    = Some (mkBoundingBoxesOnImage cut image)
    /\ cut = map clipped (List.filter shares (bounding_boxes self))
    /\ Forall (fun bb => is_partly_within_image bb image = Some (shares bb))
              (bounding_boxes self)
    /\ Forall2 (fun bb bb' => cut_out_of_image bb image = Some bb')
               (List.filter shares (bounding_boxes self)) cut
    /\ Forall (fun bb => valid bb /\ is_fully_within_image bb image = true) cut
    /\ (length cut <= length (bounding_boxes self))%nat
    /\ (Forall (fun bb => is_fully_within_image bb image = true)
               (bounding_boxes self) ->
        cut = bounding_boxes self).
Proof.
  intros image Hh Hw Hvalid shares clipped.
  unfold BoundingBoxesOnImage_cut_out_of_image. fold image.
  assert (forall bb, valid bb -> shares bb = true ->
            cut_out_of_image bb image = Some (clipped bb)) as Hcut.
  { intros bb Hv Hp. rewrite cut_out_of_image_eq by assumption.
    fold (shares bb). rewrite Hp. unfold shares in Hp.
    apply andb_true_iff in Hp as [E1 E2]. apply Z.ltb_lt in E1, E2.
    destruct Hv as [Hx Hy]. unfold clipped, np_clip. f_equal. f_equal; lia. }
  rewrite (comprehension_map _ _ shares clipped).
  - cbn [mbind option_bind]. eexists. split; [reflexivity |].
    split; [reflexivity |]. split; [| split; [| split; [| split]]].
    + apply Forall_forall. intros bb _.
      apply is_partly_within_image_eq; assumption.
    + clear - Hvalid Hcut.
      induction (bounding_boxes self) as [| b0 bs IH]; [constructor |].
      apply Forall_cons in Hvalid as [Hb Hvalid]. cbn [List.filter].
      destruct (shares b0) eqn:Eb; [| apply IH, Hvalid].
      cbn [map]. constructor; [apply Hcut; assumption | apply IH, Hvalid].
    + apply Forall_forall. intros bb Hin.
      apply list_elem_of_In, in_map_iff in Hin as (b0 & <- & Hin).
      apply filter_In in Hin as [Hin Hp].
      rewrite Forall_forall in Hvalid.
      destruct (Hvalid b0 (proj2 (list_elem_of_In _ _) Hin)) as [Hx Hy].
      unfold shares in Hp. apply andb_true_iff in Hp as [E1 E2].
      apply Z.ltb_lt in E1, E2.
      unfold valid, is_fully_within_image, clipped. cbn.
      split; [lia |]. compare_all; try reflexivity; lia.
    + rewrite length_map. apply sublist_length, filter_sublist.
    + intros Hall. clear Hcut.
      induction (bounding_boxes self) as [| b0 bs IH]; [reflexivity |].
      apply Forall_cons in Hall as [Hb Hall].
      apply Forall_cons in Hvalid as [[Hx Hy] Hvalid].
      unfold is_fully_within_image in Hb.
      apply andb_true_iff in Hb as [Hb H4].
      apply andb_true_iff in Hb as [Hb H3].
      apply andb_true_iff in Hb as [H1 H2].
      rewrite Z.geb_leb in H1, H3. apply Z.leb_le in H1, H2, H3, H4.
      cbn [List.filter]. unfold shares at 1.
      rewrite (proj2 (Z.ltb_lt _ _)) by lia.
      rewrite (proj2 (Z.ltb_lt _ _)) by lia.
      cbn [andb map]. rewrite (IH Hvalid Hall). f_equal.
      unfold clipped. destruct b0 as [a b c d l]. cbn in *.
      f_equal; lia.
  - apply Forall_forall. intros bb _.
    apply is_partly_within_image_eq; assumption.
  - apply Forall_forall. intros bb Hin Hp.
    rewrite Forall_forall in Hvalid. apply Hcut; auto.
Qed.

Lemma shift_eq self (top right bottom left : option Z) :
  valid self ->
  shift self top right bottom left
  = Some (mkBoundingBox
            (x1 self + default 0 left - default 0 right)
            (y1 self + default 0 top - default 0 bottom)
            (x2 self + default 0 left - default 0 right)
            (y2 self + default 0 top - default 0 bottom)
            (label self)).
Proof.
  intros [Hx Hy]. unfold shift, copy.
  rewrite BoundingBox_init_ordered;
    destruct top, right, bottom, left; cbn; try reflexivity; lia.
Qed.

(** X20.  On integer coordinates and amounts, [shift] of a box in corner
    order does not raise: it moves the box by [left - right] and
    [top - bottom] and keeps its width, height, area and label; without
    arguments it returns the box as it is, and shifting back by the same
    amounts with the sides exchanged restores it.  On a list of such boxes
    it returns as many boxes, each shifted.  (With float coordinates the
    sums round, and none of this is claimed.) *)
Theorem X20_shift_moves_the_box
    self (top right bottom left : option Z) :
  valid self ->
  (exists bb,
      shift self top right bottom left = Some bb
      /\ valid bb
      /\ x1 bb = x1 self + default 0 left - default 0 right
      /\ y1 bb = y1 self + default 0 top - default 0 bottom
      /\ width bb = width self /\ height bb = height self
      /\ area bb = area self /\ label bb = label self
      /\ shift bb bottom left top right = Some self)
  /\ shift self None None None None = Some self
  /\ (forall bbs image,
        Forall valid bbs ->
        exists shifted,
          BoundingBoxesOnImage_shift (mkBoundingBoxesOnImage bbs image)
                                     top right bottom left
          = Some (mkBoundingBoxesOnImage shifted image)
          /\ Forall2 (fun bb bb' => shift bb top right bottom left = Some bb')
                     bbs shifted).
Proof.
  intros Hv. split; [| split].
  - rewrite shift_eq by exact Hv. eexists. split; [reflexivity |].
    destruct Hv as [Hx Hy].
    assert (valid (mkBoundingBox
                     (x1 self + default 0 left - default 0 right)
                     (y1 self + default 0 top - default 0 bottom)
                     (x2 self + default 0 left - default 0 right)
                     (y2 self + default 0 top - default 0 bottom)
                     (label self))) as Hv' by (unfold valid; cbn; lia).
    split; [exact Hv' |].
    rewrite (shift_eq _ _ _ _ _ Hv'). clear Hv'.
    remember (default 0 left) as dl. remember (default 0 right) as dr.
    remember (default 0 top) as dt. remember (default 0 bottom) as db.
    unfold area, width, height. cbn [x1 x2 y1 y2 label].
    repeat split; try lia.
    destruct self as [a b c d l]. cbn [x1 x2 y1 y2 label].
    f_equal. f_equal; lia.
  - rewrite shift_eq by exact Hv. destruct self as [a b c d l]. cbn.
    f_equal. f_equal; lia.
  - intros bbs image Hall. unfold BoundingBoxesOnImage_shift.
    cbn [bounding_boxes bbs_shape].
    induction bbs as [| b0 bbs IH].
    + exists []. split; [reflexivity | constructor].
    + apply Forall_cons in Hall as [Hb Hall].
      destruct (IH Hall) as (shifted & Heq & Hsh).
      cbn [comprehension mbind option_bind].
      rewrite (shift_eq b0 _ _ _ _ Hb). cbn [mbind option_bind].
      destruct (comprehension _ _ bbs) as [ys |]; [| discriminate].
      cbn [mbind option_bind] in Heq |- *. injection Heq as <-.
      eexists. split; [reflexivity |].
      constructor; [apply shift_eq, Hb | exact Hsh].
Qed.

(** X21.  On integer coordinates and amounts, for a box in corner order:
    [extend] raises exactly when the new width
    [width + 2*all_sides + left + right] or the new height
    [height + 2*all_sides + top + bottom] is zero.  Otherwise it returns a
    box in corner order, without the label, of the absolute new width and
    height; with amounts that are not negative it contains the original.
    When the new width is negative (and the new height is not zero) the x
    corners have changed places: [x1] is the old [x2 + all_sides + right]
    and [x2] the old [x1 - all_sides - left]; likewise the y corners when
    the new height is negative.  (With float coordinates the sums round,
    and none of this is claimed.) *)
Theorem X21_extend_grows_or_flips
    self (all_sides top right bottom left : Z) :
  valid self ->
  let w := width self + 2 * all_sides + left + right in
  let h := height self + 2 * all_sides + top + bottom in
  (extend self all_sides top right bottom left = None <-> w = 0 \/ h = 0)
  /\ (forall bb,
        extend self all_sides top right bottom left = Some bb ->
        valid bb
        /\ width bb = Z.abs w /\ height bb = Z.abs h
        /\ label bb = None
        /\ (0 <= all_sides -> 0 <= top -> 0 <= right -> 0 <= bottom ->
            0 <= left -> inside self bb))
  /\ (w < 0 -> h <> 0 ->
      exists bb, extend self all_sides top right bottom left = Some bb
                 /\ x1 bb = x2 self + all_sides + right
                 /\ x2 bb = x1 self - all_sides - left)
  /\ (h < 0 -> w <> 0 ->
      exists bb, extend self all_sides top right bottom left = Some bb
                 /\ y1 bb = y2 self + all_sides + bottom
                 /\ y2 bb = y1 self - all_sides - top).
Proof.
  intros [Hx Hy] w h. unfold extend. rewrite BoundingBox_init_eq.
  unfold w, h, width, height. split; [| split; [| split]].
  - compare_all; split; try discriminate; try tauto; try lia; intros [|]; lia.
  - intros bb. compare_all; try discriminate. intros [= <-].
    unfold valid, inside, width, height. cbn. repeat split; lia.
  - intros Hw Hh. compare_all; try lia. eexists. split; [reflexivity |].
    cbn. lia.
  - intros Hh Hw. compare_all; try lia. eexists. split; [reflexivity |].
    cbn. lia.
Qed.

(** X22.  For two boxes in corner order with integer coordinates [iou]
    raises neither an assertion nor a division by zero.  It is the integer
    [0] exactly when the boxes share no area; otherwise it is the quotient
    of the area of their intersection by the sum of the two areas less
    that area, a denominator that is at least as large, both positive, so
    that the value lies in (0, 1].  The order of the boxes does not matter,
    and a box with itself gives its area over its area. *)
Theorem X22_iou_is_a_proper_fraction self other :
  valid self -> valid other ->
  iou self other = iou other self
  /\ iou self self = Some (Ratio (area self) (area self))
  /\ (iou self other = Some Zero
      <-> intersection self other tt = Some (inl tt))
  /\ exists q,
       iou self other = Some q
       /\ match q with
          | Zero => intersection self other tt = Some (inl tt)
          | Ratio num den =>
              (exists inters,
                  intersection self other tt = Some (inr inters)
                  /\ num = area inters
                  /\ den = area self + area other - area inters)
              /\ num = (Z.min (y2 self) (y2 other)
                        - Z.max (y1 self) (y1 other))
                       * (Z.min (x2 self) (x2 other)
                          - Z.max (x1 self) (x1 other))
              /\ 0 < num /\ num <= den
              /\ num <= area self /\ num <= area other
          end.
Proof.
  intros [Hsx Hsy] [Hox Hoy].
  assert (forall a b : BoundingBox, valid a -> valid b ->
            intersection a b tt
            = if (Z.max (x1 a) (x1 b) >=? Z.min (x2 a) (x2 b))
                 || (Z.max (y1 a) (y1 b) >=? Z.min (y2 a) (y2 b))
              then Some (inl tt)
              else Some (inr (mkBoundingBox
                                (Z.max (x1 a) (x1 b)) (Z.max (y1 a) (y1 b))
                                (Z.min (x2 a) (x2 b)) (Z.min (y2 a) (y2 b))
                                None))) as Hint.
  { intros a b _ _. unfold intersection.
    destruct ((_ >=? _) || (_ >=? _)) eqn:E; [reflexivity |].
    apply orb_false_iff in E as [E1 E2].
    rewrite Z.geb_leb in E1, E2. apply Z.leb_gt in E1, E2.
    rewrite BoundingBox_init_ordered by lia. reflexivity. }
  unfold iou. split; [| split; [| split]].
  - rewrite !Hint by (split; assumption).
    rewrite (Z.max_comm (x1 other)), (Z.max_comm (y1 other)),
            (Z.min_comm (x2 other)), (Z.min_comm (y2 other)).
    destruct ((_ >=? _) || (_ >=? _)); [reflexivity |].
    cbn [mbind option_bind]. rewrite (Z.add_comm (area other)). reflexivity.
  - rewrite Hint by (split; assumption).
    rewrite !Z.max_id, !Z.min_id.
    assert ((x1 self >=? x2 self) || (y1 self >=? y2 self) = false) as ->.
    { apply orb_false_iff. rewrite !Z.geb_leb. split; apply Z.leb_gt; lia. }
    cbn [mbind option_bind]. unfold area at 1 2 3, height, width. cbn.
    assert (0 < (y2 self - y1 self) * (x2 self - x1 self)) by nia.
    rewrite (proj2 (Z.eqb_neq _ 0)) by lia.
    unfold area, height, width. cbn [x1 x2 y1 y2]. do 2 f_equal; lia.
  - rewrite Hint by (split; assumption).
    destruct ((_ >=? _) || (_ >=? _)) eqn:E; cbn [mbind option_bind].
    + tauto.
    + split; [| discriminate].
      destruct (_ =? 0); discriminate.
  - rewrite Hint by (split; assumption).
    destruct ((_ >=? _) || (_ >=? _)) eqn:E; cbn [mbind option_bind].
    + exists Zero. split; reflexivity.
    + apply orb_false_iff in E as [E1 E2].
      rewrite Z.geb_leb in E1, E2. apply Z.leb_gt in E1, E2.
      assert (forall num den : Z,
                area (mkBoundingBox
                        (Z.max (x1 self) (x1 other))
                        (Z.max (y1 self) (y1 other))
                        (Z.min (x2 self) (x2 other))
                        (Z.min (y2 self) (y2 other)) None) = num ->
                area self + area other - num = den ->
                exists inters : BoundingBox,
                  Some (inr (mkBoundingBox
                               (Z.max (x1 self) (x1 other))
                               (Z.max (y1 self) (y1 other))
                               (Z.min (x2 self) (x2 other))
                               (Z.min (y2 self) (y2 other)) None))
                  = Some (@inr unit _ inters)
                  /\ num = area inters
                  /\ den = area self + area other - area inters) as Htie.
      { intros num den <- <-. eexists. split; [reflexivity |].
        split; reflexivity. }
      unfold area, height, width in Htie |- *. cbn [x1 x2 y1 y2] in Htie |- *.
      set (iw := Z.min (x2 self) (x2 other) - Z.max (x1 self) (x1 other)).
      set (ih := Z.min (y2 self) (y2 other) - Z.max (y1 self) (y1 other)).
      assert (0 < iw <= x2 self - x1 self /\ iw <= x2 other - x1 other)
        as [[Hiw Hiws] Hiwo] by (unfold iw; lia).
      assert (0 < ih <= y2 self - y1 self /\ ih <= y2 other - y1 other)
        as [[Hih Hihs] Hiho] by (unfold ih; lia).
      assert (0 < ih * iw) by nia.
      assert (ih * iw <= (y2 self - y1 self) * (x2 self - x1 self)) by nia.
      assert (ih * iw <= (y2 other - y1 other) * (x2 other - x1 other)) by nia.
      rewrite (proj2 (Z.eqb_neq _ 0)) by lia.
      eexists. split; [reflexivity |]. cbn beta iota.
      split; [apply Htie; reflexivity |]. fold iw ih. lia.
Qed.

(** X23.  Shifting keypoints composes and can be undone: two shifts are
    the shift by the sums, a shift by zero changes no coordinate, and the
    shape and the number of keypoints stay as they are. *)
Theorem X23_keypoints_shift_composes
    (self : KeypointsOnImage) (x y x' y' : Z) :
  KeypointsOnImage_shift (KeypointsOnImage_shift self x y) x' y'
  = KeypointsOnImage_shift self (x + x') (y + y')
  /\ KeypointsOnImage_shift (KeypointsOnImage_shift self x y) (- x) (- y)
     = self
  /\ kps_shape (KeypointsOnImage_shift self x y) = kps_shape self
  /\ length (keypoints (KeypointsOnImage_shift self x y))
     = length (keypoints self)
  /\ KeypointsOnImage_shift self 0 0 = KeypointsOnImage_deepcopy self.
Proof.
  destruct self as [kps shp]. unfold KeypointsOnImage_shift,
    KeypointsOnImage_deepcopy, Keypoint_shift. cbn [keypoints kps_shape].
  split; [| split; [| split; [| split]]].
  - f_equal. rewrite map_map. apply map_ext. intros [kx ky]. cbn.
    f_equal; lia.
  - f_equal. rewrite map_map. rewrite <- (map_id kps) at 2.
    apply map_ext. intros [kx ky]. cbn. f_equal; lia.
  - reflexivity.
  - apply length_map.
  - f_equal. apply map_ext. intros [kx ky]. cbn. f_equal; lia.
Qed.

End BoxFacts.

(** ** Arrays *)

Section ImageFacts.
Import Geometry Arrays.

Context {Px : Type} (zero : Px) `{L : Labels}.

Implicit Types (im : image (Px := Px)) (self : BoundingBox).

(** Case analysis on the integer comparisons of a goal. *)
Ltac compare_all :=
  rewrite ?Z.gtb_ltb, ?Z.geb_leb;
  repeat (match goal with
          | |- context [Z.ltb ?a ?b] => destruct (Z.ltb_spec a b)
          | |- context [Z.leb ?a ?b] => destruct (Z.leb_spec a b)
          | |- context [Z.eqb ?a ?b] => destruct (Z.eqb_spec a b)
          end; cbn [negb orb andb]; rewrite ?Z.gtb_ltb, ?Z.geb_leb).

Lemma slice_bound_in (len : nat) (a : Z) :
  0 <= a <= Z.of_nat len -> slice_bound len a = Z.to_nat a.
Proof.
  intros Ha. unfold slice_bound.
  destruct (Z.ltb_spec a 0); lia.
Qed.

Lemma slice_length {X : Type} (l : list X) (a b : Z) :
  0 <= a <= b -> b <= Z.of_nat (length l) ->
  length (slice l a b) = (Z.to_nat b - Z.to_nat a)%nat.
Proof.
  intros Hab Hb. unfold slice. rewrite !slice_bound_in by lia.
  rewrite length_take, length_drop. lia.
Qed.

Lemma slice_lookup {X : Type} (l : list X) (a b : Z) (i : nat) :
  0 <= a <= b -> b <= Z.of_nat (length l) ->
  (i < Z.to_nat b - Z.to_nat a)%nat ->
  slice l a b !! i = l !! (Z.to_nat a + i)%nat.
Proof.
  intros Hab Hb Hi. unfold slice. rewrite !slice_bound_in by lia.
  rewrite lookup_take_lt by exact Hi. apply lookup_drop.
Qed.

Lemma np_pad_well_shaped im (top bottom left right : nat) :
  well_shaped im -> well_shaped (np_pad zero im top bottom left right).
Proof.
  intros [Hh Hw]. unfold well_shaped, np_pad. cbn. split.
  - rewrite !length_app, !length_replicate, length_map. lia.
  - rewrite !Forall_app. repeat split.
    + apply Forall_forall. intros row Hin.
      apply elem_of_replicate in Hin as [-> _]. apply length_replicate.
    + apply Forall_forall. intros row Hin.
      apply list_elem_of_In, in_map_iff in Hin as (r0 & <- & Hin).
      rewrite Forall_forall in Hw.
      rewrite !length_app, !length_replicate,
        (Hw r0 (proj2 (list_elem_of_In _ _) Hin)). lia.
    + apply Forall_forall. intros row Hin.
      apply elem_of_replicate in Hin as [-> _]. apply length_replicate.
Qed.

Lemma np_pad_nothing im : well_shaped im -> np_pad zero im 0 0 0 0 = im.
Proof.
  intros [Hh Hw]. destruct im as [h w rows]. unfold np_pad. cbn in *.
  rewrite !Nat.add_0_r, app_nil_r. f_equal.
  rewrite <- (map_id rows) at 2. apply map_ext. intros row.
  apply app_nil_r.
Qed.

(** A pixel of the padded image: the image's own, moved by the padding at
    the top and on the left, or zero around it. *)
Lemma np_pad_pixel im (top bottom left right : nat) (y x : nat) :
  well_shaped im ->
  (y < top + im_height im + bottom)%nat ->
  (x < left + im_width im + right)%nat ->
  pixel (np_pad zero im top bottom left right) y x
  = if (top <=? y)%nat && (y <? top + im_height im)%nat
       && (left <=? x)%nat && (x <? left + im_width im)%nat
    then pixel im (y - top) (x - left)
    else Some zero.
Proof.
  intros [Hh Hw] Hy Hx. unfold pixel, np_pad. cbn [im_rows im_height im_width].
  destruct (Nat.leb_spec top y) as [Hty | Hty]; cbn [andb].
  - rewrite lookup_app_r by (rewrite length_replicate; exact Hty).
    rewrite length_replicate.
    destruct (Nat.ltb_spec y (top + im_height im)) as [Hyh | Hyh]; cbn [andb].
    + rewrite lookup_app_l by (rewrite length_map; lia).
      rewrite (list_lookup_fmap _ (im_rows im) (y - top)%nat).
      destruct (im_rows im !! (y - top)%nat) as [row |] eqn:Erow.
      2: { apply lookup_ge_None in Erow. lia. }
      cbn [fmap option_fmap option_map mbind option_bind].
      assert (length row = im_width im) as Hrow.
      { rewrite Forall_forall in Hw. apply Hw.
        apply list_elem_of_lookup. eauto. }
      destruct (Nat.leb_spec left x) as [Hlx | Hlx]; cbn [andb].
      * rewrite lookup_app_r by (rewrite length_replicate; exact Hlx).
        rewrite length_replicate.
        destruct (Nat.ltb_spec x (left + im_width im)) as [Hxw | Hxw].
        -- rewrite lookup_app_l by lia. reflexivity.
        -- rewrite lookup_app_r by lia.
           apply lookup_replicate_2. lia.
      * rewrite lookup_app_l by (rewrite length_replicate; exact Hlx).
        apply lookup_replicate_2. exact Hlx.
    + rewrite lookup_app_r by (rewrite length_map; lia).
      rewrite length_map.
      rewrite lookup_replicate_2 by lia. cbn [mbind option_bind].
      apply lookup_replicate_2. exact Hx.
  - rewrite lookup_app_l by (rewrite length_replicate; exact Hty).
    rewrite lookup_replicate_2 by exact Hty. cbn [mbind option_bind].
    apply lookup_replicate_2. exact Hx.
Qed.

(** A slice that stays in the array: its shape and its pixels. *)
Lemma slice2_in_range im (ya yb xa xb : Z) :
  well_shaped im ->
  0 <= ya <= yb -> yb <= Z.of_nat (im_height im) ->
  0 <= xa <= xb -> xb <= Z.of_nat (im_width im) ->
  well_shaped (slice2 im ya yb xa xb)
  /\ im_height (slice2 im ya yb xa xb) = Z.to_nat (yb - ya)
  /\ im_width (slice2 im ya yb xa xb) = Z.to_nat (xb - xa)
  /\ forall r c,
       (r < Z.to_nat (yb - ya))%nat -> (c < Z.to_nat (xb - xa))%nat ->
       pixel (slice2 im ya yb xa xb) r c
       = pixel im (Z.to_nat ya + r) (Z.to_nat xa + c).
Proof.
  intros [Hh Hw] Hy Hyb Hx Hxb. unfold slice2, well_shaped, pixel.
  cbn [im_rows im_height im_width].
  rewrite !slice_bound_in by lia.
  assert (forall row, row ∈ slice (im_rows im) ya yb ->
                      length row = im_width im) as Hrows.
  { intros row Hin. rewrite Forall_forall in Hw. apply Hw.
    unfold slice in Hin. eapply sublist_subseteq; [| exact Hin].
    etransitivity; [apply sublist_take | apply sublist_drop]. }
  split; [| split; [lia | split; [lia |]]].
  - split.
    + rewrite length_map, slice_length by lia. reflexivity.
    + apply Forall_forall. intros row Hin.
      apply list_elem_of_In, in_map_iff in Hin as (r0 & <- & Hin).
      apply list_elem_of_In in Hin.
      rewrite slice_length by (rewrite ?(Hrows r0 Hin); lia). reflexivity.
  - intros r c Hr Hc.
    rewrite (list_lookup_fmap _ (slice (im_rows im) ya yb) r).
    rewrite slice_lookup by lia.
    destruct (im_rows im !! (Z.to_nat ya + r)%nat) as [row |] eqn:Erow;
      [| reflexivity].
    cbn [fmap option_fmap option_map mbind option_bind].
    assert (length row = im_width im) as Hrow.
    { rewrite Forall_forall in Hw. apply Hw.
      apply list_elem_of_lookup. eauto. }
    apply slice_lookup; lia.
Qed.

(** The padding and the slice of [extract_from_image], for any amounts
    that leave the slice inside the padded array. *)
Lemma extract_core im (pt pb pl pr ya yb xa xb : Z) :
  well_shaped im ->
  0 <= pt -> 0 <= pb -> 0 <= pl -> 0 <= pr ->
  0 <= ya <= yb -> yb <= pt + Z.of_nat (im_height im) + pb ->
  0 <= xa <= xb -> xb <= pl + Z.of_nat (im_width im) + pr ->
  let padded :=
    if existsb (fun val => val >? 0) [pt; pr; pb; pl]
    then np_pad zero im (Z.to_nat pt) (Z.to_nat pb) (Z.to_nat pl) (Z.to_nat pr)
    else im in
  let R := slice2 padded ya yb xa xb in
  well_shaped R
  /\ im_height R = Z.to_nat (yb - ya)
  /\ im_width R = Z.to_nat (xb - xa)
  /\ forall r c : nat,
       Z.of_nat r < yb - ya -> Z.of_nat c < xb - xa ->
       pixel R r c
       = if (0 <=? ya + Z.of_nat r - pt)
            && (ya + Z.of_nat r - pt <? Z.of_nat (im_height im))
            && (0 <=? xa + Z.of_nat c - pl)
            && (xa + Z.of_nat c - pl <? Z.of_nat (im_width im))
         then pixel im (Z.to_nat (ya + Z.of_nat r - pt))
                       (Z.to_nat (xa + Z.of_nat c - pl))
         else Some zero.
Proof.
  intros Hws Hpt Hpb Hpl Hpr Hy Hyb Hx Hxb padded R.
  assert (padded = np_pad zero im (Z.to_nat pt) (Z.to_nat pb)
                          (Z.to_nat pl) (Z.to_nat pr)) as Hpad.
  { unfold padded. destruct (existsb _ _) eqn:E; [reflexivity |].
    cbn [existsb] in E. rewrite !Z.gtb_ltb in E.
    repeat (apply orb_false_iff in E as [? E]).
    repeat match goal with
           | Hlt : (0 <? _) = false |- _ => apply Z.ltb_ge in Hlt
           end.
    replace pt with 0 by lia. replace pb with 0 by lia.
    replace pl with 0 by lia. replace pr with 0 by lia.
    symmetry. apply np_pad_nothing, Hws. }
  pose proof (np_pad_well_shaped im (Z.to_nat pt) (Z.to_nat pb)
                (Z.to_nat pl) (Z.to_nat pr) Hws) as Hwp.
  rewrite <- Hpad in Hwp.
  assert (im_height padded
          = (Z.to_nat pt + im_height im + Z.to_nat pb)%nat) as Hph
    by (rewrite Hpad; reflexivity).
  assert (im_width padded
          = (Z.to_nat pl + im_width im + Z.to_nat pr)%nat) as Hpw
    by (rewrite Hpad; reflexivity).
  destruct (slice2_in_range padded ya yb xa xb Hwp) as (HR & Hh & Hw & Hpx);
    try lia.
  split; [exact HR |]. split; [exact Hh |]. split; [exact Hw |].
  intros r c Hr Hc. unfold R. rewrite Hpx by lia. rewrite Hpad.
  rewrite np_pad_pixel by (try exact Hws; lia).
  replace (Z.to_nat ya + r - Z.to_nat pt)%nat
    with (Z.to_nat (ya + Z.of_nat r - pt)) by lia.
  replace (Z.to_nat xa + c - Z.to_nat pl)%nat
    with (Z.to_nat (xa + Z.of_nat c - pl)) by lia.
  match goal with
  | |- (if ?b1 then _ else _) = (if ?b2 then _ else _) =>
      assert (b1 = b2) as ->; [| reflexivity]
  end.
  repeat match goal with
         | |- context [(?a <=? ?b)%nat] => destruct (Nat.leb_spec a b)
         | |- context [(?a <? ?b)%nat] => destruct (Nat.ltb_spec a b)
         end;
    compare_all; try reflexivity; lia.
Qed.

(** X25.  [extract_from_image] of a box in corner order returns an array
    of exactly the box's height and width, wherever the box lies: a pixel
    of it is the image's pixel at that place of the box when the place is in
    the image, and zero when it is not. *)
Theorem X25_extract_from_image_window self im :
  valid self -> well_shaped im ->
  let R := extract_from_image zero self im in
  well_shaped R
  /\ Z.of_nat (im_height R) = height self
  /\ Z.of_nat (im_width R) = width self
  /\ forall r c : nat,
       Z.of_nat r < height self -> Z.of_nat c < width self ->
       pixel R r c
       = if (0 <=? y1 self + Z.of_nat r)
            && (y1 self + Z.of_nat r <? Z.of_nat (im_height im))
            && (0 <=? x1 self + Z.of_nat c)
            && (x1 self + Z.of_nat c <? Z.of_nat (im_width im))
         then pixel im (Z.to_nat (y1 self + Z.of_nat r))
                       (Z.to_nat (x1 self + Z.of_nat c))
         else Some zero.
Proof.
  intros [Hx Hy] Hws R. subst R.
  unfold extract_from_image, x1_int, x2_int, y1_int, y2_int, height, width.
  destruct (Z.ltb_spec (x1 self) 0) as [Hx1 | Hx1];
    destruct (Z.ltb_spec (y1 self) 0) as [Hy1 | Hy1]; cbv zeta iota beta;
    rewrite !Z.geb_leb;
    repeat match goal with
           | |- context [Z.leb ?a ?b] =>
               lazymatch a with
               | Z.of_nat _ => destruct (Z.leb_spec a b)
               end
           end;
    match goal with
    | |- context [slice2 (if existsb _ [?pt; ?pr; ?pb; ?pl] then _ else _)
                         ?ya ?yb ?xa ?xb] =>
        destruct (extract_core im pt pb pl pr ya yb xa xb Hws)
          as (HR & Hh & Hw & Hpx); try lia
    end;
    (split; [exact HR |]); (split; [rewrite Hh; lia |]);
    (split; [rewrite Hw; lia |]);
    intros r c Hr Hc; rewrite Hpx by lia;
    match goal with
    | |- (if (0 <=? ?a) && (?a <? _) && (0 <=? ?b) && (?b <? _)
          then _ else _) = _ =>
        replace a with (y1 self + Z.of_nat r) by lia;
        replace b with (x1 self + Z.of_nat c) by lia
    end; reflexivity.
Qed.

Lemma slice_update_length {X : Type} (f : X -> X) (a b : Z) (l : list X) :
  length (slice_update f a b l) = length l.
Proof. unfold slice_update. apply length_imap. Qed.

Lemma slice_update_Forall {X : Type} (Q : X -> Prop) (f : X -> X)
    (a b : Z) (l : list X) :
  Forall Q l -> (forall x, Q x -> Q (f x)) ->
  Forall Q (slice_update f a b l).
Proof.
  intros Hl Hf. apply Forall_lookup. intros i y Hy.
  unfold slice_update in Hy. rewrite list_lookup_imap in Hy.
  destruct (l !! i) as [x |] eqn:Ex; [| discriminate].
  cbn in Hy. injection Hy as <-.
  pose proof (Forall_lookup_1 _ _ _ _ Hl Ex) as Hx.
  destruct (_ && _); auto.
Qed.

Lemma argmax_from_keeps (l : list Z) : forall best_i best i,
  Forall (fun v => v <= best) l -> argmax_from best_i best i l = best_i.
Proof.
  induction l as [| v l IH]; intros best_i best i Hall; [reflexivity |].
  apply Forall_cons in Hall as [Hv Hall]. cbn [argmax_from].
  rewrite Z.gtb_ltb, (proj2 (Z.ltb_ge best v) Hv). apply IH, Hall.
Qed.

Lemma argmax_from_finds (m : Z) (post : list Z) (pre : list Z) :
  forall best_i best i,
    best < m -> Forall (fun v => v < m) pre -> Forall (fun v => v <= m) post ->
    argmax_from best_i best i (pre ++ m :: post) = (i + length pre)%nat.
Proof.
  induction pre as [| v pre IH]; intros best_i best i Hb Hpre Hpost.
  - cbn [app argmax_from length].
    rewrite (proj2 (Z.gtb_lt m best) Hb), Nat.add_0_r.
    apply argmax_from_keeps, Hpost.
  - apply Forall_cons in Hpre as [Hv Hpre]. cbn [app argmax_from length].
    destruct (v >? best) eqn:E.
    + rewrite (IH i v (S i)) by assumption. lia.
    + rewrite (IH best_i best (S i)) by assumption. lia.
Qed.

(** The first position of a value larger than all the others. *)
Lemma argmax_unique_max (m : Z) (pre post : list Z) :
  Forall (fun v => v < m) pre -> Forall (fun v => v < m) post ->
  argmax (pre ++ m :: post) = Some (length pre).
Proof.
  intros Hpre Hpost.
  assert (Forall (fun v => v <= m) post) as Hpost'
      by (eapply Forall_impl; [exact Hpost | cbn; intros; lia]).
  destruct pre as [| v pre]; cbn [app argmax length].
  - f_equal. apply argmax_from_keeps, Hpost'.
  - apply Forall_cons in Hpre as [Hv Hpre].
    rewrite (argmax_from_finds m post pre 0%nat v 1%nat) by assumption.
    reflexivity.
Qed.

Lemma concat_uniform_length {X : Type} (w : nat) (rows : list (list X)) :
  Forall (fun row => length row = w) rows ->
  length (concat rows) = (length rows * w)%nat.
Proof.
  induction 1 as [| row rows Hrow _ IH]; [reflexivity |].
  cbn [concat length]. rewrite length_app, IH, Hrow. lia.
Qed.

(** The channel that [to_keypoint_image] draws for a keypoint on the
    image: 255 at the keypoint and smaller values everywhere else. *)
Lemma draw_keypoint_channel (h w sizeh : Z) (kp : Keypoint) :
  0 <= kp_x kp < w -> 0 <= kp_y kp < h ->
  exists before rb ra after,
    draw_keypoint h w sizeh kp (zeros (Z.to_nat h) (Z.to_nat w))
    = before ++ (rb ++ 255 :: ra) :: after
    /\ length before = Z.to_nat (kp_y kp)
    /\ length rb = Z.to_nat (kp_x kp)
    /\ Forall (fun row => length row = Z.to_nat w) before
    /\ Forall (Forall (fun v => v < 255)) before
    /\ Forall (fun v => v < 255) rb
    /\ Forall (fun v => v < 255) ra
    /\ Forall (Forall (fun v => v < 255)) after.
Proof.
  intros Hx Hy. unfold draw_keypoint, x_int, y_int.
  assert ((0 <=? kp_y kp) && (kp_y kp <? h) && (0 <=? kp_x kp)
          && (kp_x kp <? w) = true) as ->
      by (compare_all; try reflexivity; lia).
  set (Q := fun row : list Z =>
              length row = Z.to_nat w /\ Forall (fun v => v < 255) row).
  match goal with
  | |- context [alter _ _ ?c] => set (c0 := c)
  end.
  assert (length c0 = Z.to_nat h /\ Forall Q c0) as [Hlen Hall].
  { assert (length (zeros (Z.to_nat h) (Z.to_nat w)) = Z.to_nat h
            /\ Forall Q (zeros (Z.to_nat h) (Z.to_nat w))) as [Hz1 Hz2].
    { unfold zeros. split; [apply length_replicate |].
      apply Forall_replicate. split; [apply length_replicate |].
      apply Forall_replicate. lia. }
    unfold c0. destruct (_ && _); [| split; assumption].
    split; [rewrite slice_update_length; exact Hz1 |].
    apply slice_update_Forall; [exact Hz2 |].
    intros row [Hr1 Hr2]. split; [rewrite slice_update_length; exact Hr1 |].
    apply slice_update_Forall; [exact Hr2 | intros; lia]. }
  destruct (lookup_lt_is_Some_2 c0 (Z.to_nat (kp_y kp)) ltac:(lia))
    as [row Hrow].
  pose proof (Forall_lookup_1 _ _ _ _ Hall Hrow) as [Hrl Hrv].
  destruct (lookup_lt_is_Some_2 row (Z.to_nat (kp_x kp)) ltac:(lia))
    as [v Hv].
  exists (take (Z.to_nat (kp_y kp)) c0), (take (Z.to_nat (kp_x kp)) row),
         (drop (S (Z.to_nat (kp_x kp))) row),
         (drop (S (Z.to_nat (kp_y kp))) c0).
  assert (Forall Q (take (Z.to_nat (kp_y kp)) c0)) as Hbefore
      by (apply Forall_take, Hall).
  assert (Forall Q (drop (S (Z.to_nat (kp_y kp))) c0)) as Hafter
      by (apply Forall_drop, Hall).
  split; [| repeat split].
  - rewrite <- (take_drop_middle c0 _ row Hrow) at 1.
    rewrite <- (Nat.add_0_r (Z.to_nat (kp_y kp))) at 1.
    replace (Z.to_nat (kp_y kp) + 0)%nat
      with (length (take (Z.to_nat (kp_y kp)) c0) + 0)%nat
      by (rewrite length_take; lia).
    rewrite alter_app_r. cbn [alter list_alter]. do 2 f_equal.
    rewrite <- (take_drop_middle row _ v Hv) at 1.
    replace (Z.to_nat (kp_x kp))
      with (length (take (Z.to_nat (kp_x kp)) row) + 0)%nat at 1
      by (rewrite length_take; lia).
    rewrite insert_app_r. reflexivity.
  - rewrite length_take. lia.
  - rewrite length_take. lia.
  - eapply Forall_impl; [exact Hbefore | intros ? [? ?]; assumption].
  - eapply Forall_impl; [exact Hbefore | intros ? [? ?]; assumption].
  - apply Forall_take, Hrv.
  - apply Forall_drop, Hrv.
  - eapply Forall_impl; [exact Hafter | intros ? [? ?]; assumption].
Qed.

(** The loop of [to_keypoint_image] draws every keypoint on its own
    channel. *)
Lemma draw_keypoints_all (h w sizeh : Z) (z : list (list Z))
    (kps : list Keypoint) : forall pre,
  draw_keypoints h w sizeh (length pre) kps
                 (pre ++ replicate (length kps) z)
  = pre ++ map (fun kp => draw_keypoint h w sizeh kp z) kps.
Proof.
  induction kps as [| kp kps IH]; intros pre; [reflexivity |].
  cbn [draw_keypoints length replicate map].
  assert (alter (draw_keypoint h w sizeh kp) (length pre)
                (pre ++ z :: replicate (length kps) z)
          = pre ++ draw_keypoint h w sizeh kp z :: replicate (length kps) z)
    as ->.
  { rewrite <- (Nat.add_0_r (length pre)). rewrite alter_app_r.
    reflexivity. }
  specialize (IH (pre ++ [draw_keypoint h w sizeh kp z])).
  rewrite length_app in IH. cbn [length] in IH.
  rewrite Nat.add_1_r, <- !app_assoc in IH. exact IH.
Qed.

Lemma find_keypoints_drawn (image : shape) (sizeh threshold : Z)
    (drop_if_not_found : bool) (nx ny : Z) (kps : list Keypoint) :
  Forall (on_image image) kps -> threshold <= 255 ->
  find_keypoints (Z.to_nat (sh_height image)) (Z.to_nat (sh_width image))
    threshold drop_if_not_found nx ny
    (map (fun kp => draw_keypoint (sh_height image) (sh_width image) sizeh kp
                      (zeros (Z.to_nat (sh_height image))
                             (Z.to_nat (sh_width image)))) kps)
  = Some kps.
Proof.
  intros Hall Hthr. induction Hall as [| kp kps [Hx Hy] _ IH]; [reflexivity |].
  cbn [map find_keypoints].
  destruct (draw_keypoint_channel (sh_height image) (sh_width image) sizeh kp
              Hx Hy)
    as (before & rb & ra & after & -> & Hlb & Hlrb & Hwb & Hvb & Hvrb & Hvra
        & Hva).
  set (wn := Z.to_nat (sh_width image)) in *.
  set (yn := Z.to_nat (kp_y kp)) in *. set (xn := Z.to_nat (kp_x kp)) in *.
  assert (concat (before ++ (rb ++ 255 :: ra) :: after)
          = (concat before ++ rb) ++ 255 :: (ra ++ concat after)) as ->.
  { rewrite concat_app, concat_cons, <- !app_assoc. reflexivity. }
  rewrite argmax_unique_max.
  2: { apply Forall_app. split; [apply Forall_concat, Hvb | exact Hvrb]. }
  2: { apply Forall_app. split; [exact Hvra | apply Forall_concat, Hva]. }
  cbn [mbind option_bind].
  rewrite length_app, (concat_uniform_length wn before Hwb), Hlb, Hlrb.
  assert ((xn < wn)%nat) as Hxw by (unfold xn, wn; lia).
  unfold unravel_index. cbn [fst snd].
  assert (((yn * wn + xn) / wn)%nat = yn) as ->.
  { symmetry. apply (Nat.div_unique _ _ _ xn); [exact Hxw | lia]. }
  assert (((yn * wn + xn) mod wn)%nat = xn) as ->.
  { symmetry. apply (Nat.mod_unique _ _ yn); [exact Hxw | lia]. }
  rewrite <- (Nat.add_0_r yn) at 1. rewrite <- Hlb at 1.
  rewrite lookup_app_r by lia.
  replace (length before + 0 - length before)%nat with 0%nat by lia.
  cbn [lookup list_lookup mbind option_bind].
  rewrite <- (Nat.add_0_r xn) at 1. rewrite <- Hlrb at 1.
  rewrite lookup_app_r by lia.
  replace (length rb + 0 - length rb)%nat with 0%nat by lia.
  cbn [lookup list_lookup mbind option_bind].
  rewrite IH. cbn [mbind option_bind].
  rewrite Z.geb_leb, (proj2 (Z.leb_le threshold 255) Hthr).
  do 2 f_equal. destruct kp as [kx ky]. unfold xn, yn. cbn in *.
  f_equal; lia.
Qed.

(** X24.  Keypoints on pixels of the image survive the way through a
    keypoint image: for an odd [size], a threshold of at most 255 and any
    accepted [if_not_found_coords], [from_keypoint_image] of
    [to_keypoint_image] returns the same keypoints in the same order, on the
    shape of the image's height and width (and [nb_channels], if given).
    Neither function raises. *)
Theorem X24_keypoint_image_round_trip
    (self : KeypointsOnImage) (size threshold : Z)
    (if_not_found_coords : if_not_found) (nb_channels : option Z) :
  keypoints self <> [] ->
  size mod 2 <> 0 ->
  Forall (on_image (kps_shape self)) (keypoints self) ->
  threshold <= 255 ->
  accepted if_not_found_coords ->
  exists image,
    to_keypoint_image self size = Some image
    /\ Z.of_nat (ki_height image) = sh_height (kps_shape self)
    /\ Z.of_nat (ki_width image) = sh_width (kps_shape self)
    /\ length (ki_channels image) = length (keypoints self)
    /\ from_keypoint_image image if_not_found_coords threshold nb_channels
       = Some (mkKeypointsOnImage (keypoints self)
                 (mkShape (sh_height (kps_shape self))
                          (sh_width (kps_shape self))
                          (match nb_channels with
                           | Some c => [c]
                           | None => []
                           end))).
Proof.
  intros Hne Hodd Hon Hthr Hacc. destruct self as [kps image].
  cbn [keypoints kps_shape] in *.
  assert (0 < sh_height image /\ 0 < sh_width image) as [Hh Hw].
  { destruct kps as [| kp kps]; [congruence |].
    apply Forall_cons in Hon as [[Hx Hy] _]. lia. }
  unfold to_keypoint_image. cbn [keypoints kps_shape].
  destruct kps as [| kp0 kps0] eqn:Ekps; [congruence |]. rewrite <- Ekps in *.
  assert ((0 <? length kps)%nat = true) as ->
      by (rewrite Ekps; reflexivity).
  assert ((sh_height image <? 0) || (sh_width image <? 0) = false) as ->.
  { apply orb_false_iff. split; apply Z.ltb_ge; lia. }
  rewrite (proj2 (Z.eqb_neq _ 0) Hodd). cbn [negb].
  pose proof (draw_keypoints_all (sh_height image) (sh_width image)
                (Z.max 0 ((size - 1) / 2))
                (zeros (Z.to_nat (sh_height image))
                       (Z.to_nat (sh_width image))) kps []) as Hdraw.
  cbn [length app] in Hdraw. rewrite Hdraw. clear Hdraw.
  eexists. split; [reflexivity |]. cbn [ki_height ki_width ki_channels].
  split; [lia |]. split; [lia |]. split; [apply length_map |].
  unfold from_keypoint_image. cbn [ki_height ki_width ki_channels].
  assert (exists d nx ny,
            match if_not_found_coords with
            | NotFoundNone => Some (true, -1, -1)
            | NotFoundSeq [x; y] => Some (false, x, y)
            | NotFoundDict (Some x) (Some y) => Some (false, x, y)
            | _ => None
            end = Some (d, nx, ny)) as (d & nx & ny & Hparse).
  { destruct if_not_found_coords as [| [| a [| b [| ? ?]]] | [a |] [b |] |];
      cbn in Hacc; try contradiction; eauto. }
  match goal with
  | |- context [match if_not_found_coords with _ => _ end] =>
      match goal with
      | |- (?m ≫= _) = _ => replace m with (Some (d, nx, ny))
      end
  end.
  cbn [mbind option_bind].
  rewrite find_keypoints_drawn by assumption. cbn [mbind option_bind].
  do 3 f_equal; lia.
Qed.

End ImageFacts.

(** ** The further statements on concrete inputs *)

Section MoreInstances.
Import RandomStates Batches BatchLoader BackgroundAugmenter Views Toy.
Import Geometry Arrays ToyGeometry.

Lemma X1_witness :
  0 <= 7 <= 2 ^ 32 - 1 /\ 3 <= 2 ^ 32 - 10 ^ 6
  /\ seed st0 (-1) = None
  /\ exists st0s rs st',
       seed st0 7 = Some st0s
       /\ derive_random_states st0s current_random_state 3 = Some (rs, st')
       /\ length rs = 3%nat
       /\ current st' = snd (rk_randint 7).
Proof.
  assert (0 <= 7 <= 2 ^ 32 - 1) as Hs by (vm_compute; split; discriminate).
  assert (3 <= 2 ^ 32 - 10 ^ 6) as Hn by (vm_compute; discriminate).
  split; [exact Hs |]. split; [exact Hn |].
  split.
  - apply (proj1 (X1_seed_makes_derivation_reproducible st0 st0 (-1) 3)).
    left. reflexivity.
  - destruct (proj2 (X1_seed_makes_derivation_reproducible st0 st0 7 3)
                Hs Hn)
      as (st0s & st0t & rs & st' & rs2 & st2'
          & Hseed & _ & Hd & _ & _ & Hlen & _ & Hcur).
    exists st0s, rs, st'. split; [exact Hseed |]. split; [exact Hd |].
    split; [exact Hlen | exact Hcur].
Defined.

Lemma X2_witness :
  get_state st0 CURRENT_RANDOM_STATE = Some 42
  /\ exists c st',
       derive_random_state st0 CURRENT_RANDOM_STATE = Some (c, st')
       /\ get_state st' c = Some 42
       /\ get_state st' CURRENT_RANDOM_STATE = Some 1250496027.
Proof.
  split; [reflexivity |].
  destruct (X2_derive_random_state_one_child st0 CURRENT_RANDOM_STATE 42
              eq_refl) as (c & st' & Hd & _ & Hc & Hp & _).
  exists c, st'. split; [exact Hd |]. split; [exact Hc | exact Hp].
Defined.

Lemma X4_witness :
  let env := [mkTick false true; mkTick false false; mkTick false false] in
  Forall (fun t => join_set t = false) env
  /\ _load_batches st0 (yields [only_images]) env None
     = (st0, [Put (pickle_dumps only_images); SetFinished], Exited).
Proof.
  intros env.
  assert (Forall (fun t => join_set t = false) env) as Hno
      by (repeat constructor).
  split; [exact Hno |].
  rewrite (X4_load_batches_puts_every_batch st0 [only_images] env None st0
             [Put (pickle_dumps only_images); SetFinished] Hno eq_refl) at 1.
  reflexivity.
Defined.

Lemma X6_witness :
  let env := [mkTick true false; mkTick true true] in
  Forall (fun t => join_set t = true) env
  /\ put_batches (snd (fst (_load_batches st0 (yields [only_images]) env None)))
     = []
  /\ snd (_load_batches st0 (yields [only_images]) env None) = Exited.
Proof.
  intros env.
  assert (Forall (fun t => join_set t = true) env) as Hset
      by (repeat constructor).
  split; [exact Hset |].
  destruct (X6_load_batches_stops_on_join_signal st0 (yields [only_images])
              env None Hset) as [Hnone Hexit].
  split; [exact Hnone |].
  apply Hexit; [simpl; lia | discriminate].
Defined.

Lemma X7_witness :
  0 < 50 /\ 1 <= 2
  /\ exists self st',
       BatchLoader_init st0 [] 50 2 true = Some (self, st')
       /\ all_finished self = false
       /\ Z.of_nat (length (workers self)) = 2.
Proof.
  split; [lia |]. split; [lia |].
  destruct (X7_BatchLoader_init_fresh st0 [] 50 2 true) as [Hiff Hfresh].
  assert (0 < 50 /\ 1 <= 2) as Hargs by lia.
  destruct (proj2 Hiff Hargs) as [[self st'] Hinit].
  destruct (Hfresh self st' Hinit) as (Hall & _ & _ & Hn & _).
  exists self, st'. split; [exact Hinit |]. split; [exact Hall | exact Hn].
Defined.

Lemma X8_witness :
  exists loader st1 augmenter st2,
    BatchLoader_init st0 [] 50 2 false = Some (loader, st1)
    /\ BackgroundAugmenter_init st1 augseq0 None None 50 (Some 1)
       = Some (augmenter, st2)
    /\ map w_seedval (workers loader) = [Some 42; Some 496027]
    /\ worker_seeds augmenter = drop 2 (fst (rk_draws 3 42)).
Proof.
  assert (exists loader st1,
            BatchLoader_init st0 [] 50 2 false = Some (loader, st1))
    as (loader & st1 & Hl) by (eexists _, _; reflexivity).
  assert (exists augmenter st2,
            BackgroundAugmenter_init st1 augseq0 None None 50 (Some 1)
            = Some (augmenter, st2))
    as (augmenter & st2 & Ha).
  { injection Hl as _ <-. eexists _, _. reflexivity. }
  destruct (X8_stage_seeds_are_consecutive_draws st0 st1 st2 [] 50 2 50 1
              false loader augseq0 None None augmenter Hl Ha)
    as (Hseeds & Hws & _).
  exists loader, st1, augmenter, st2.
  split; [exact Hl |]. split; [exact Ha |].
  split; [exact (Hseeds eq_refl) | exact Hws].
Defined.

Lemma X9_witness :
  0 < 50
  /\ exists self st',
       BackgroundAugmenter_init st0 augseq0 None None 50 None
       = Some (self, st')
       /\ nb_workers self = 3
       /\ Z.of_nat (length (worker_seeds self)) = 3.
Proof.
  split; [lia |].
  destruct (X9_BackgroundAugmenter_init_workers st0 augseq0 None None 50
              None) as [Hiff Hinit].
  assert (0 < 50 /\ forall n, @None Z = Some n -> 1 <= n) as Hargs
      by (split; [lia | discriminate]).
  destruct (proj2 Hiff Hargs) as [[self st'] Hs].
  destruct (Hinit self st' Hs) as (_ & Hnb & Hlen & _).
  exists self, st'. split; [exact Hs |]. split; [exact Hnb |].
  rewrite Hlen. exact Hnb.
Defined.

Lemma X10_witness :
  let polls := [Got (pickle_dumps only_images); TimedOut [false];
                Got (pickle_dumps no_mask); TimedOut [true]] in
  worker_loop self0 ws0 polls
  = ([pickle_dumps (Some images_done)], Died tt, ws1)
  /\ Forall2 same_inputs [only_images] [images_done].
Proof.
  intros polls. split; [reflexivity |].
  exact (proj1 (X10_worker_output_follows_input self0 polls ws0
                  [pickle_dumps (Some images_done)] (Died tt) ws1 eq_refl)).
Defined.

Lemma X11_witness :
  2 <= 2
  /\ fst (get_batch 2 [pickle_dumps None; pickle_dumps (Some images_done)] 2)
     <> ReturnsNone.
Proof.
  split; [lia |].
  apply X11_get_batch_no_second_None. lia.
Defined.

Lemma X13_witness :
  is_not_None (images_gt all_three) = true
  /\ augment_batch self0 ws0 all_three = inr (all_three_done, ws1)
  /\ images_gt_aug all_three_done = None.
Proof.
  split; [reflexivity |]. split; [reflexivity |].
  destruct (X13_keypoints_take_precedence_over_ground_truth self0 ws0
              all_three all_three_done ws1 eq_refl eq_refl eq_refl eq_refl
              eq_refl) as (Hgt & _).
  exact Hgt.
Defined.

Lemma X14_witness :
  exists bb,
    BoundingBox_init 5 6 1 2 tag = Some bb
    /\ x1 bb = 1 /\ x2 bb = 5 /\ y1 bb = 2 /\ y2 bb = 6 /\ 0 < area bb.
Proof.
  exists (box 1 2 5 6). split; [reflexivity |].
  destruct (proj2 (proj2 (X14_BoundingBox_init_orders_corners 5 6 1 2
                            tag)) (box 1 2 5 6) eq_refl)
    as (_ & H1 & H2 & H3 & H4 & _ & _ & _ & Ha).
  repeat split; assumption.
Defined.

Lemma X15_witness :
  intersection (box 0 0 4 4) (box 2 2 6 6) tt
  = Some (inr (mkBoundingBox 2 2 4 4 None))
  /\ inside (mkBoundingBox 2 2 4 4 None) (box 0 0 4 4).
Proof.
  split; [reflexivity |].
  destruct (proj2 (proj2 (proj2 (X15_intersection_is_largest_common_box
                                   (box 0 0 4 4) (box 2 2 6 6) tt)))
              (mkBoundingBox 2 2 4 4 None) eq_refl) as (_ & Hin & _).
  exact Hin.
Defined.

Lemma X16_witness :
  valid (box 0 0 4 4) /\ valid (box 2 2 6 6)
  /\ exists u, union (box 0 0 4 4) (box 2 2 6 6) = Some u
               /\ inside (box 0 0 4 4) u /\ inside (box 2 2 6 6) u.
Proof.
  assert (valid (box 0 0 4 4)) as Ha by (split; reflexivity).
  assert (valid (box 2 2 6 6)) as Hb by (split; reflexivity).
  split; [exact Ha |]. split; [exact Hb |].
  destruct (proj2 (X16_union_is_smallest_enclosing_box _ _ Ha Hb))
    as (u & Hu & _ & H1 & H2 & _).
  exists u. split; [exact Hu |]. split; [exact H1 | exact H2].
Defined.

Lemma X17_witness :
  valid (box (-2) (-1) 2 2)
  /\ exists bb,
       cut_out_of_image (box (-2) (-1) 2 2) shape34 = Some bb
       /\ is_fully_within_image bb shape34 = true
       /\ label bb = tag.
Proof.
  assert (valid (box (-2) (-1) 2 2)) as Hv by (split; reflexivity).
  split; [exact Hv |].
  destruct (X17_cut_out_of_image_clips_or_raises (box (-2) (-1) 2 2) shape34
              Hv eq_refl eq_refl) as (p & Hp & _ & _ & Hcut & _).
  assert (p = true) as -> by (injection Hp as <-; reflexivity).
  destruct (Hcut eq_refl) as (_ & bb & Hbb & _ & Hin & _ & Hl).
  exists bb. split; [exact Hbb |]. split; [exact Hin | exact Hl].
Defined.

Lemma X18_witness :
  exists kept,
    remove_out_of_image three_boxes true false
    = Some (mkBoundingBoxesOnImage kept shape34)
    /\ (In (box 5 0 7 2) kept -> False)
    /\ In (box (-2) (-1) 2 2) kept.
Proof.
  destruct (proj1 (X18_remove_out_of_image_keeps three_boxes true false)
              eq_refl eq_refl) as (kept & Hk & _ & Hin).
  exists kept. split; [exact Hk |]. split.
  - intros H. apply Hin in H as [_ [H | [[_ H] | [H _]]]]; discriminate H.
  - apply Hin. split; [right; left; reflexivity |].
    right. left. split; reflexivity.
Defined.

Lemma X19_witness :
  Forall valid (bounding_boxes three_boxes)
  /\ exists cut,
       BoundingBoxesOnImage_cut_out_of_image three_boxes
       = Some (mkBoundingBoxesOnImage cut shape34)
       /\ Forall (fun bb => valid bb
                            /\ is_fully_within_image bb shape34 = true) cut.
Proof.
  assert (Forall valid (bounding_boxes three_boxes)) as Hv
      by (repeat constructor).
  split; [exact Hv |].
  destruct (X19_cut_out_of_image_of_all_boxes three_boxes eq_refl eq_refl Hv)
    as (cut & Hc & _ & _ & _ & Hall & _).
  exists cut. split; [exact Hc | exact Hall].
Defined.

Lemma X20_witness :
  valid (box 1 1 3 2)
  /\ exists bb,
       shift (box 1 1 3 2) (Some 2) None None (Some 5) = Some bb
       /\ x1 bb = 6 /\ y1 bb = 3 /\ area bb = 2
       /\ shift bb None (Some 5) (Some 2) None = Some (box 1 1 3 2).
Proof.
  assert (valid (box 1 1 3 2)) as Hv by (split; reflexivity).
  split; [exact Hv |].
  destruct (proj1 (X20_shift_moves_the_box (box 1 1 3 2) (Some 2) None None
                     (Some 5) Hv))
    as (bb & Hs & _ & Hx & Hy & _ & _ & Ha & _ & Hback).
  exists bb. split; [exact Hs |]. split; [exact Hx |]. split; [exact Hy |].
  split; [exact Ha | exact Hback].
Defined.

Lemma X21_witness :
  valid (box 0 0 4 6)
  /\ exists bb,
       extend (box 0 0 4 6) 0 0 (-3) 0 (-3) = Some bb
       /\ x1 bb = 1 /\ x2 bb = 3 /\ label bb = None.
Proof.
  assert (valid (box 0 0 4 6)) as Hv by (split; reflexivity).
  split; [exact Hv |].
  assert (width (box 0 0 4 6) + 2 * 0 + -3 + -3 < 0) as Hw by reflexivity.
  assert (height (box 0 0 4 6) + 2 * 0 + 0 + 0 <> 0) as Hh by discriminate.
  destruct (proj1 (proj2 (proj2 (X21_extend_grows_or_flips
                                   (box 0 0 4 6) 0 0 (-3) 0 (-3) Hv)))
              Hw Hh)
    as (bb & Hb & H1 & H2).
  destruct (proj1 (proj2 (X21_extend_grows_or_flips (box 0 0 4 6) 0 0 (-3) 0 (-3)
                            Hv)) bb Hb) as (_ & _ & _ & Hl & _).
  exists bb. split; [exact Hb |]. split; [exact H1 |].
  split; [exact H2 | exact Hl].
Defined.

Lemma X22_witness :
  valid (box 0 0 4 4) /\ valid (box 2 2 6 6)
  /\ iou (box 0 0 4 4) (box 2 2 6 6) = Some (Ratio 4 28)
  /\ iou (box 0 0 4 4) (box 0 0 4 4) = Some (Ratio 16 16).
Proof.
  assert (valid (box 0 0 4 4)) as Ha by (split; reflexivity).
  assert (valid (box 2 2 6 6)) as Hb by (split; reflexivity).
  split; [exact Ha |]. split; [exact Hb |]. split; [reflexivity |].
  exact (proj1 (proj2 (X22_iou_is_a_proper_fraction _ _ Ha Hb))).
Defined.

Lemma X24_witness :
  exists image,
    to_keypoint_image two_keypoints 3 = Some image
    /\ from_keypoint_image image (NotFoundDict (Some (-1)) (Some (-1))) 1
                           (Some 3)
       = Some two_keypoints.
Proof.
  assert (Forall (on_image (kps_shape two_keypoints))
                 (keypoints two_keypoints)) as Hon.
  { repeat constructor; cbn; lia. }
  assert (keypoints two_keypoints <> []) as Hne by discriminate.
  assert (3 mod 2 <> 0) as Hodd by discriminate.
  assert (1 <= 255) as Hthr by lia.
  destruct (X24_keypoint_image_round_trip two_keypoints 3 1
              (NotFoundDict (Some (-1)) (Some (-1))) (Some 3)
              Hne Hodd Hon Hthr I)
    as (image & Hto & _ & _ & _ & Hfrom).
  exists image. split; [exact Hto | exact Hfrom].
Defined.

Lemma X25_witness :
  valid (box (-1) 1 2 4)
  /\ well_shaped im34
  /\ im_rows (extract_from_image 0 (box (-1) 1 2 4) im34)
     = [[0; 5; 6]; [0; 9; 10]; [0; 0; 0]]
  /\ im_height (extract_from_image 0 (box (-1) 1 2 4) im34) = 3%nat.
Proof.
  assert (valid (box (-1) 1 2 4)) as Hv by (split; reflexivity).
  assert (well_shaped im34) as Hws
      by (split; [reflexivity | repeat constructor]).
  split; [exact Hv |]. split; [exact Hws |]. split; [reflexivity |].
  destruct (X25_extract_from_image_window 0 (box (-1) 1 2 4) im34 Hv Hws)
    as (_ & Hh & _).
  apply Nat2Z.inj. exact Hh.
Defined.

End MoreInstances.
